(** * Single-query podium generation (smtcomp/generate_website_page.py)

    A shallow embedding of the ranking pipeline of
    [smtcomp/generate_website_page.py]: the data frames are lists of
    records, and the data-frame operations the module uses ([filter],
    [group_by]/[agg], [sort], [join]) are list functions.

    Modelling conventions:
    - an integer column has the width the engine gives it and its
      arithmetic wraps around: the counts ([pl.len()], sums of booleans) are
      UInt32 and the integer score columns are Int64 ([Frame.wrap_u32],
      [Frame.wrap_i64]); a frame has fewer than 2^32 rows, so a count is the
      number of rows counted; Python integers are unbounded ([Z]);
    - the two time scores are floats in the source; they are kept abstract
      ([FloatOrd]): a carrier with the engine's addition and its total sort
      order, so nothing is assumed about rounding;
    - a [group_by] without [maintain_order] leaves the order of the groups
      unspecified; the model lists the groups by first occurrence;
    - what the module imports from [smtcomp.defs] and [smtcomp.scoring] is a
      parameter ([Defs], [Scoring]); [smtcomp.utils.intersect] is modelled
      from the specification;
    - the sort is modelled by an insertion sort: the sort key contains the
      group and the solver, which identify a row of the aggregated frame, so
      every sorting algorithm returns the same frame
      ([sorted_frame_unique]). *)

From Stdlib Require Import ZArith QArith List String Ascii Bool Lia.
From Stdlib Require Import Sorted Permutation DecimalString.
Import ListNotations.
Local Open Scope Z_scope.

(** ** Errors raised by the pipeline *)

Inductive error : Type :=
| JoinNotOneToOne   (* polars: join keys did not fulfil 1:1 validation *)
| NoneNotIterable   (* TypeError: iterating over None *)
| IndexOutOfRange.  (* IndexError: l[0] on an empty list *)

Inductive result (A : Type) : Type :=
| Ok (a : A)
| Err (e : error).

Arguments Ok {A} a.
Arguments Err {A} e.

Definition bind {A B : Type} (m : result A) (k : A -> result B) : result B :=
  match m with
  | Ok a => k a
  | Err e => Err e
  end.

Notation "x <- m ;; k" := (bind m (fun x => k))
  (at level 61, m at next level, right associativity).

Fixpoint mapM {A B : Type} (f : A -> result B) (l : list A) : result (list B) :=
  match l with
  | [] => Ok []
  | a :: l' => b <- f a ;; bs <- mapM f l' ;; Ok (b :: bs)
  end.

(** ** Comparators

    Sort keys are compared column by column; a column comparator is a
    three-way comparison that is a total preorder. *)

Module Cmp.

Class TotalPreorder {A : Type} (cmp : A -> A -> comparison) : Prop := {
  cmp_refl : forall x, cmp x x = Eq;
  cmp_antisym : forall x y, cmp y x = CompOpp (cmp x y);
  cmp_ge_trans : forall x y z, cmp x y <> Lt -> cmp y z <> Lt -> cmp x z <> Lt
}.

(** Lexicographic combination: the first column decides unless it ties. *)
Definition lex {A : Type} (c1 c2 : A -> A -> comparison) (a b : A) : comparison :=
  match c1 a b with
  | Eq => c2 a b
  | c => c
  end.

(** Comparison of one column [f] of a row. *)
Definition on {A B : Type} (f : A -> B) (c : B -> B -> comparison) (a b : A) : comparison :=
  c (f a) (f b).

(** The comparison that ties everything (an empty list of sort columns). *)
Definition triv {A : Type} (a b : A) : comparison := Eq.

(** [a] may stand before [b] in a descending, resp. ascending, sort. *)
Definition geb {A : Type} (c : A -> A -> comparison) (a b : A) : bool :=
  match c a b with Lt => false | _ => true end.

Definition leb {A : Type} (c : A -> A -> comparison) (a b : A) : bool :=
  match c a b with Gt => false | _ => true end.

End Cmp.

(** ** Data-frame operations *)

Module Frame.

Section Ops.

Context {A K : Type}.
Variable K_dec : forall x y : K, {x = y} + {x <> y}.

Definition keyb (k k' : K) : bool := if K_dec k k' then true else false.

(** Distinct keys, in order of first occurrence. *)
Fixpoint unique (ks : list K) : list K :=
  match ks with
  | [] => []
  | k :: ks' => k :: filter (fun k' => negb (keyb k k')) (unique ks')
  end.

(** [df.group_by(key)]: one bucket per key value, each bucket holding the
    rows of that key in frame order. *)
Definition group_by (key : A -> K) (rows : list A) : list (K * list A) :=
  map (fun k => (k, filter (fun r => keyb (key r) k) rows)) (unique (map key rows)).

Definition has_dup (ks : list K) : bool :=
  negb (Nat.eqb (List.length (unique ks)) (List.length ks)).

Fixpoint lookup {B : Type} (k : K) (l : list (K * B)) : option B :=
  match l with
  | [] => None
  | (k', b) :: l' => if K_dec k k' then Some b else lookup k l'
  end.

(** [left.join(right, on=key, how="left", validate="1:1")]: the join raises
    when a key occurs twice on either side; a left row without a partner
    gets a null. *)
Definition left_join {B C : Type} (key : A -> K) (add : A -> option B -> C)
    (left : list A) (right : list (K * B)) : result (list C) :=
  if has_dup (map key left) || has_dup (map fst right)
  then Err JoinNotOneToOne
  else Ok (map (fun a => add a (lookup (key a) right)) left).

End Ops.

(** [df.sort(...)]: insertion sort for a boolean "may stand before". *)
Fixpoint insert {A : Type} (before : A -> A -> bool) (x : A) (l : list A) : list A :=
  match l with
  | [] => [x]
  | y :: l' => if before x y then x :: l else y :: insert before x l'
  end.

Definition sort {A : Type} (before : A -> A -> bool) (l : list A) : list A :=
  fold_right (insert before) [] l.

(** Number of rows on which a boolean expression holds: [(expr).sum()]. *)
Definition count {A : Type} (p : A -> bool) (rows : list A) : Z :=
  Z.of_nat (List.length (filter p rows)).

Definition len {A : Type} (rows : list A) : Z := Z.of_nat (List.length rows).

Definition sum (l : list Z) : Z := fold_left Z.add l 0.

(** The value a UInt32, resp. Int64, column holds for an integer: the
    arithmetic of the columns wraps around. *)
Definition wrap_u32 (z : Z) : Z := z mod 2 ^ 32.

Definition wrap_i64 (z : Z) : Z := (z + 2 ^ 63) mod 2 ^ 64 - 2 ^ 63.

(** [pl.sum] of an Int64 column. *)
Definition sum_i64 (l : list Z) : Z := fold_left (fun a x => wrap_i64 (a + x)) l 0.

End Frame.

(** ** Data model *)

(** The time scores are floats.  Only their sum and their sort order are
    used: [fl_add] is the engine's addition and [fl_cmp] its sort order,
    which is total on floats. *)
Record FloatOrd : Type := {
  fl :> Type;
  fl_zero : fl;
  fl_add : fl -> fl -> fl;
  fl_cmp : fl -> fl -> comparison;
  fl_order : Cmp.TotalPreorder fl_cmp
}.

(** [smtcomp.scoring.Kind]: the five scoring variants. *)
Module Kind.

Inductive t : Type := seq | par | sat | unsat | twentyfour.

Definition all : list t := [seq; par; sat; unsat; twentyfour].

Definition eq_dec (a b : t) : {a = b} + {a <> b}.
Proof. decide equality. Defined.

End Kind.

(** The names of the score columns, as listed by [smtcomp.scoring.scores]. *)
Inductive ScoreField : Type :=
| ErrorScore | CorrectlySolvedScore | CpuTimeScore | WallclockTimeScore.

(** The [results] frame.  [raw] has every column; [tracked] is a row after
    [drop("disagreements")], [row] a row after [drop("track")]. *)
Module Results.

Record row {F : FloatOrd} : Type := {
  solver : string;
  division : Z;
  logic : Z;
  answer : Z;
  error_score : Z;
  correctly_solved_score : Z;
  cpu_time_score : F;
  wallclock_time_score : F
}.
Arguments row : clear implicits.

Record tracked {F : FloatOrd} : Type := {
  track : Z;
  drop_track : row F
}.
Arguments tracked : clear implicits.

Record raw {F : FloatOrd} : Type := {
  disagreements : bool;
  drop_disagreements : tracked F
}.
Arguments raw : clear implicits.

(** The column named by [group_by]: "division" or "logic". *)
Definition col {F : FloatOrd} (for_division : bool) (r : row F) : Z :=
  if for_division then division r else logic r.

End Results.

(** The [selection] frame. *)
Module Selection.

Record row : Type := {
  division : Z;
  logic : Z;
  selected : bool
}.

Definition col (for_division : bool) (r : row) : Z :=
  if for_division then division r else logic r.

End Selection.

(** The struct of twelve columns that makes one entry of a ranked list. *)
Module Agg.

Record t {F : FloatOrd} : Type := {
  solver : string;
  error_score : Z;
  correctly_solved_score : Z;
  cpu_time_score : F;
  wallclock_time_score : F;
  solved : Z;
  solved_sat : Z;
  solved_unsat : Z;
  unsolved : Z;
  timeout : Z;
  memout : Z;
  abstained : Z
}.
Arguments t : clear implicits.

End Agg.

Module PodiumStep.

Record t {F : FloatOrd} : Type := {
  name : string;
  competing : string;
  errorScore : Z;
  correctScore : Z;
  CPUScore : F;
  WallScore : F;
  solved : Z;
  solved_sat : Z;
  solved_unsat : Z;
  unsolved : Z;
  abstained : Z;
  timeout : Z;
  memout : Z
}.
Arguments t : clear implicits.

End PodiumStep.

Module PodiumDivision.

Record t {F : FloatOrd} : Type := {
  resultdate : string;
  year : Z;
  divisions : string;
  participants : string;
  disagreements : string;
  division : string;
  track : string;
  n_benchmarks : Z;
  time_limit : Z;
  mem_limit : Z;
  logics : list (string * Z);
  winner_seq : string;
  winner_par : string;
  winner_sat : string;
  winner_unsat : string;
  winner_24s : string;
  sequential : list (PodiumStep.t F);
  parallel : list (PodiumStep.t F);
  sat : list (PodiumStep.t F);
  unsat : list (PodiumStep.t F);
  twentyfour : list (PodiumStep.t F);
  layout : string
}.
Arguments t : clear implicits.

End PodiumDivision.

(** One row of the joined frame, as [df.to_dicts()] yields it: the group
    key, its total, the nested logic counts (division grouping only) and
    one ranked list per variant; a null is [None]. *)
Module Joined.

Record t {F : FloatOrd} : Type := {
  group : Z;
  total : Z;
  logics : option (list (Z * Z));
  ranked : Kind.t -> option (list (Agg.t F))
}.
Arguments t : clear implicits.

Definition set_logics {F : FloatOrd} (d : t F) (v : option (list (Z * Z))) : t F :=
  {| group := group d; total := total d; logics := v; ranked := ranked d |}.

Definition set_ranked {F : FloatOrd} (k : Kind.t) (d : t F) (v : option (list (Agg.t F))) : t F :=
  {| group := group d; total := total d; logics := logics d;
     ranked := fun k' => if Kind.eq_dec k' k then v else ranked d k' |}.

End Joined.

(** ** What the module imports *)

(** [defs.Config]: the three settings echoed into every record. *)
Record Config : Type := {
  current_year : Z;
  timelimit_s : Z;
  memlimit_M : Z
}.

(** [smtcomp.defs]: the name tables of the enumerations and the integer of
    the single-query track. *)
Record Defs : Type := {
  Division_name_of_int : Z -> string;
  Logic_name_of_int : Z -> string;
  Track_SingleQuery : Z
}.

(** [smtcomp.scoring]: the variant filter (a frame transformer), the ordered
    list of score columns and the answer classifiers (row expressions). *)
Record Scoring (F : FloatOrd) : Type := {
  filter_for : Kind.t -> Config -> list (Results.row F) -> list (Results.row F);
  scores : list ScoreField;
  known_answer : Results.row F -> bool;
  sat_answer : Results.row F -> bool;
  unsat_answer : Results.row F -> bool;
  unknown_answer : Results.row F -> bool;
  timeout_answer : Results.row F -> bool;
  memout_answer : Results.row F -> bool
}.
Arguments filter_for {F}.
Arguments scores {F}.
Arguments known_answer {F}.
Arguments sat_answer {F}.
Arguments unsat_answer {F}.
Arguments unknown_answer {F}.
Arguments timeout_answer {F}.
Arguments memout_answer {F}.

(** ** Python dictionaries and strings *)

Module PyDict.

(** [d[k] = v]: a present key keeps its place and takes the new value, a
    new key goes last. *)
Fixpoint set {V : Type} (k : string) (v : V) (d : list (string * V)) : list (string * V) :=
  match d with
  | [] => [(k, v)]
  | (k', v') :: d' =>
      if string_dec k k' then (k, v) :: d' else (k', v') :: set k v d'
  end.

(** [dict(items)] *)
Definition of_items {V : Type} (items : list (string * V)) : list (string * V) :=
  fold_left (fun d kv => set (fst kv) (snd kv) d) items [].

Fixpoint get {V : Type} (k : string) (d : list (string * V)) : option V :=
  match d with
  | [] => None
  | (k', v) :: d' => if string_dec k k' then Some v else get k d'
  end.

(** The order of [(str, int)] tuples. *)
Definition cmp_item : string * Z -> string * Z -> comparison :=
  Cmp.lex (Cmp.on fst String.compare) (Cmp.on snd Z.compare).

(** [sorted(d.items())] *)
Definition sorted_items (d : list (string * Z)) : list (string * Z) :=
  Frame.sort (Cmp.leb cmp_item) d.

End PyDict.

(** [str(n)] for an integer, as an f-string prints it. *)
Definition str (n : Z) : string := NilZero.string_of_int (Z.to_int n).

(** [s.lower()] follows the Unicode case tables; the method is a parameter
    of the pipeline. *)
Class PyStr : Type := { str_lower : string -> string }.

(** ** The pipeline *)

Section Pipeline.

Context {F : FloatOrd} {py : PyStr}.
Variable defs : Defs.
Variable scoring : Scoring F.

Definition fl_sum (l : list F) : F := fold_left (fl_add F) l (fl_zero F).

(** *** podium_steps *)

Definition podium_step (s : Agg.t F) : PodiumStep.t F :=
  {| PodiumStep.name := Agg.solver s;
     PodiumStep.competing := "yes";
     PodiumStep.errorScore := - Agg.error_score s;
     PodiumStep.correctScore := Agg.correctly_solved_score s;
     PodiumStep.CPUScore := Agg.cpu_time_score s;
     PodiumStep.WallScore := Agg.wallclock_time_score s;
     PodiumStep.solved := Agg.solved s;
     PodiumStep.solved_sat := Agg.solved_sat s;
     PodiumStep.solved_unsat := Agg.solved_unsat s;
     PodiumStep.unsolved := Agg.unsolved s;
     PodiumStep.abstained := Agg.abstained s;
     PodiumStep.timeout := Agg.timeout s;
     PodiumStep.memout := Agg.memout s |}.

Definition podium_steps (podium : option (list (Agg.t F))) : list (PodiumStep.t F) :=
  match podium with
  | None => []
  | Some l => map podium_step l
  end.

(** *** make_podium *)

(** [l[0]] raises on an empty list. *)
Definition get_winner (l : option (list (Agg.t F))) : result string :=
  match l with
  | None => Ok "-"%string
  | Some [] => Err IndexOutOfRange
  | Some (s :: _) =>
      if Agg.correctly_solved_score s =? 0 then Ok "-"%string else Ok (Agg.solver s)
  end.

Definition make_podium (config : Config) (d : Joined.t F) (for_division : bool)
  : result (PodiumDivision.t F) :=
  dl <- (if for_division then
           match Joined.logics d with
           | None => Err NoneNotIterable
           | Some l =>
               Ok (Division_name_of_int defs (Joined.group d),
                   PyDict.of_items
                     (map (fun d2 => (Logic_name_of_int defs (fst d2), snd d2)) l))
           end
         else Ok (Logic_name_of_int defs (Joined.group d), [])) ;;
  w_seq <- get_winner (Joined.ranked d Kind.seq) ;;
  w_par <- get_winner (Joined.ranked d Kind.par) ;;
  w_sat <- get_winner (Joined.ranked d Kind.sat) ;;
  w_unsat <- get_winner (Joined.ranked d Kind.unsat) ;;
  w_24s <- get_winner (Joined.ranked d Kind.twentyfour) ;;
  Ok {| PodiumDivision.resultdate := "2024-07-08";
        PodiumDivision.year := current_year config;
        PodiumDivision.divisions := "divisions_" ++ str (current_year config);
        PodiumDivision.participants := "participants_" ++ str (current_year config);
        PodiumDivision.disagreements := "disagreements_" ++ str (current_year config);
        PodiumDivision.division := fst dl;
        PodiumDivision.track := "track_single_query";
        PodiumDivision.n_benchmarks := Joined.total d;
        PodiumDivision.time_limit := timelimit_s config;
        PodiumDivision.mem_limit := memlimit_M config;
        PodiumDivision.logics := PyDict.of_items (PyDict.sorted_items (snd dl));
        PodiumDivision.winner_seq := w_seq;
        PodiumDivision.winner_par := w_par;
        PodiumDivision.winner_sat := w_sat;
        PodiumDivision.winner_unsat := w_unsat;
        PodiumDivision.winner_24s := w_24s;
        PodiumDivision.sequential := podium_steps (Joined.ranked d Kind.seq);
        PodiumDivision.parallel := podium_steps (Joined.ranked d Kind.par);
        PodiumDivision.sat := podium_steps (Joined.ranked d Kind.sat);
        PodiumDivision.unsat := podium_steps (Joined.ranked d Kind.unsat);
        PodiumDivision.twentyfour := podium_steps (Joined.ranked d Kind.twentyfour);
        PodiumDivision.layout := "result" |}.

(** *** sq_generate_datas *)

Definition pairZ_dec (x y : Z * Z) : {x = y} + {x <> y}.
Proof. decide equality; apply Z.eq_dec. Defined.

Definition key_dec (x y : Z * string) : {x = y} + {x <> y}.
Proof. decide equality; [apply string_dec | apply Z.eq_dec]. Defined.

(** The sort order of one score column, and of the columns
    [smtcomp.scoring.scores + ["solver"]]. *)
Definition cmp_score (f : ScoreField) (a b : Agg.t F) : comparison :=
  match f with
  | ErrorScore => Z.compare (Agg.error_score a) (Agg.error_score b)
  | CorrectlySolvedScore =>
      Z.compare (Agg.correctly_solved_score a) (Agg.correctly_solved_score b)
  | CpuTimeScore => fl_cmp F (Agg.cpu_time_score a) (Agg.cpu_time_score b)
  | WallclockTimeScore =>
      fl_cmp F (Agg.wallclock_time_score a) (Agg.wallclock_time_score b)
  end.

Fixpoint cmp_scores (fs : list ScoreField) : Agg.t F -> Agg.t F -> comparison :=
  match fs with
  | [] => Cmp.triv
  | f :: fs' => Cmp.lex (cmp_score f) (cmp_scores fs')
  end.

Definition cmp_rank : Agg.t F -> Agg.t F -> comparison :=
  Cmp.lex (cmp_scores (scores scoring)) (Cmp.on Agg.solver String.compare).

(** The sort columns [[group_by] + scores + ["solver"]] of the aggregated
    frame, whose rows are a group key and the twelve aggregated columns. *)
Definition cmp_sort : Z * Agg.t F -> Z * Agg.t F -> comparison :=
  Cmp.lex (Cmp.on fst Z.compare) (Cmp.on snd cmp_rank).

(** [selection.group_by(group_by).agg(total=pl.len())] *)
Definition len_by_division (for_division : bool) (selection : list Selection.row)
  : list (Z * Z) :=
  map (fun b => (fst b, Frame.len (snd b)))
      (Frame.group_by Z.eq_dec (Selection.col for_division) selection).

(** Modelled from the spec: [smtcomp.utils.intersect], which is not part of
    this module.  It restricts the left frame to the key values present in
    the right frame (an inner join on [on]): rows of a group without a total
    are dropped, and the columns of the right frame, here [total], come with
    each row that stays.  The keys of the totals are distinct, so a row of
    the results has one partner at most. *)
Definition intersect (for_division : bool) (results : list (Results.row F))
    (totals : list (Z * Z)) : list (Results.row F * Z) :=
  flat_map
    (fun r =>
       map (fun t => (r, snd t))
           (filter (fun t => fst t =? Results.col for_division r) totals))
    results.

(** The aggregation of one [(group, solver)] bucket.  [first()] of an empty
    column is a null; a bucket is never empty.  The score sums are sums of
    Int64 columns; [total] and [pl.len()] are UInt32, and so is their
    difference. *)
Definition agg_bucket (key : Z * string) (rows : list (Results.row F * Z))
  : Z * Agg.t F :=
  let rs := map fst rows in
  (fst key,
   {| Agg.solver := snd key;
      Agg.error_score := Frame.sum_i64 (map Results.error_score rs);
      Agg.correctly_solved_score :=
        Frame.sum_i64 (map Results.correctly_solved_score rs);
      Agg.cpu_time_score := fl_sum (map Results.cpu_time_score rs);
      Agg.wallclock_time_score := fl_sum (map Results.wallclock_time_score rs);
      Agg.solved := Frame.count (known_answer scoring) rs;
      Agg.solved_sat := Frame.count (sat_answer scoring) rs;
      Agg.solved_unsat := Frame.count (unsat_answer scoring) rs;
      Agg.unsolved := Frame.count (unknown_answer scoring) rs;
      Agg.timeout := Frame.count (timeout_answer scoring) rs;
      Agg.memout := Frame.count (memout_answer scoring) rs;
      Agg.abstained := Frame.wrap_u32 (hd 0 (map snd rows) - Frame.len rows) |}).

Definition bucket_key (for_division : bool) (x : Results.row F * Z) : Z * string :=
  (Results.col for_division (fst x), Results.solver (fst x)).

(** The frame before the sort: one row per [(group, solver)]. *)
Definition aggregated (for_division : bool) (totals : list (Z * Z))
    (kind : Kind.t) (config : Config) (results : list (Results.row F))
  : list (Z * Agg.t F) :=
  map (fun b => agg_bucket (fst b) (snd b))
      (Frame.group_by key_dec (bucket_key for_division)
         (intersect for_division (filter_for scoring kind config results) totals)).

(** [info_for_podium_step]; [group_by] and [len_by_division], which the
    source captures from the enclosing function, are the first two
    arguments. *)
Definition info_for_podium_step (for_division : bool) (totals : list (Z * Z))
    (kind : Kind.t) (config : Config) (results : list (Results.row F))
  : list (Z * list (Agg.t F)) :=
  map (fun b => (fst b, map snd (snd b)))
      (Frame.group_by Z.eq_dec fst
         (Frame.sort (Cmp.geb cmp_sort)
            (aggregated for_division totals kind config results))).

(** [selection.group_by("division", "logic").agg(n=pl.len())
      .group_by("division").agg(logics=pl.struct("logic", "n"))] *)
Definition lf_logics (selection : list Selection.row) : list (Z * list (Z * Z)) :=
  map (fun b => (fst b, map (fun x => (snd (fst x), snd x)) (snd b)))
      (Frame.group_by Z.eq_dec (fun x : Z * Z * Z => fst (fst x))
         (map (fun b => (fst b, Frame.len (snd b)))
            (Frame.group_by pairZ_dec
               (fun s => (Selection.division s, Selection.logic s)) selection))).

(** The selected rows and the single-query rows. *)
Definition selected_rows (selection : list Selection.row) : list Selection.row :=
  filter Selection.selected selection.

Definition single_query (results : list (Results.tracked F)) : list (Results.row F) :=
  map Results.drop_track
      (filter (fun r => Results.track r =? Track_SingleQuery defs) results).

(** [functools.reduce] of the validated left joins, then [collect] and
    [to_dicts]. *)
Definition joined (config : Config) (selection : list Selection.row)
    (results : list (Results.row F)) (for_division : bool)
  : result (list (Joined.t F)) :=
  let totals := len_by_division for_division selection in
  let r0 :=
    map (fun t => {| Joined.group := fst t; Joined.total := snd t;
                     Joined.logics := None; Joined.ranked := fun _ => None |})
        totals in
  let r1 :=
    if for_division
    then Frame.left_join Z.eq_dec Joined.group Joined.set_logics r0 (lf_logics selection)
    else Ok r0 in
  fold_left
    (fun acc kind =>
       x <- acc ;;
       Frame.left_join Z.eq_dec Joined.group (Joined.set_ranked kind) x
         (info_for_podium_step for_division totals kind config results))
    Kind.all r1.

Definition name_of_int (for_division : bool) : Z -> string :=
  if for_division then Division_name_of_int defs else Logic_name_of_int defs.

Definition sq_generate_datas (config : Config) (selection : list Selection.row)
    (results : list (Results.tracked F)) (for_division : bool)
  : result (list (string * PodiumDivision.t F)) :=
  let results := single_query results in
  let selection := selected_rows selection in
  df <- joined config selection results for_division ;;
  items <- mapM (fun d =>
                   p <- make_podium config d for_division ;;
                   Ok (name_of_int for_division (Joined.group d), p)) df ;;
  Ok (PyDict.of_items items).

(** *** export_results

    The effect is the sequence of files written, each a name under the
    destination directory and the record serialised into it, and the error
    that stopped the run, if any. *)

Definition undisputed (results : list (Results.raw F)) : list (Results.tracked F) :=
  map Results.drop_disagreements
      (filter (fun r => negb (Results.disagreements r)) results).

Definition file_of (item : string * PodiumDivision.t F) : string * PodiumDivision.t F :=
  ((str_lower (fst item) ++ "-single-query.md")%string, snd item).

Definition export_results (config : Config) (selection : list Selection.row)
    (results : list (Results.raw F))
  : list (string * PodiumDivision.t F) * option error :=
  let results := undisputed results in
  fold_left
    (fun st for_division =>
       match snd st with
       | Some _ => st
       | None =>
           match sq_generate_datas config selection results for_division with
           | Ok d => ((fst st ++ map file_of d)%list, None)
           | Err e => (fst st, Some e)
           end
       end)
    [true; false] ([], None).

End Pipeline.

(** ** Vocabulary of the statements *)

Section Vocabulary.

Context {F : FloatOrd}.
Variable defs : Defs.
Variable scoring : Scoring F.

(** The rows a solver contributes to a group under a variant, and the
    number of selected benchmarks of a group. *)
Definition contributed (for_division : bool) (kind : Kind.t) (config : Config)
    (results : list (Results.row F)) (g : Z) (s : string) : list (Results.row F) :=
  filter (fun r => (Results.col for_division r =? g) && String.eqb (Results.solver r) s)
         (filter_for scoring kind config results).

Definition total_of (for_division : bool) (selection : list Selection.row) (g : Z) : Z :=
  Frame.len (filter (fun x => Selection.col for_division x =? g) (selected_rows selection)).

(** The bucket of [(g, s)] in the frame that [intersect] returns. *)
Definition bucket (for_division : bool) (totals : list (Z * Z)) (kind : Kind.t)
    (config : Config) (results : list (Results.row F)) (g : Z) (s : string)
  : list (Results.row F * Z) :=
  filter (fun x => Frame.keyb key_dec (bucket_key for_division x) (g, s))
         (intersect for_division (filter_for scoring kind config results) totals).

(** The aggregated frame after the sort. *)
Definition sorted_frame (for_division : bool) (totals : list (Z * Z)) (kind : Kind.t)
    (config : Config) (results : list (Results.row F)) : list (Z * Agg.t F) :=
  Frame.sort (Cmp.geb (cmp_sort scoring))
    (aggregated scoring for_division totals kind config results).

(** The aggregate computed from the rows [rows] of a solver [s] in a group
    of [t] selected benchmarks. *)
Definition aggregate_of (s : string) (t : Z) (rows : list (Results.row F)) : Agg.t F :=
  {| Agg.solver := s;
     Agg.error_score := Frame.sum_i64 (map Results.error_score rows);
     Agg.correctly_solved_score :=
       Frame.sum_i64 (map Results.correctly_solved_score rows);
     Agg.cpu_time_score := fl_sum (map Results.cpu_time_score rows);
     Agg.wallclock_time_score := fl_sum (map Results.wallclock_time_score rows);
     Agg.solved := Frame.count (known_answer scoring) rows;
     Agg.solved_sat := Frame.count (sat_answer scoring) rows;
     Agg.solved_unsat := Frame.count (unsat_answer scoring) rows;
     Agg.unsolved := Frame.count (unknown_answer scoring) rows;
     Agg.timeout := Frame.count (timeout_answer scoring) rows;
     Agg.memout := Frame.count (memout_answer scoring) rows;
     Agg.abstained := Frame.wrap_u32 (t - Frame.len rows) |}.

(** A row of the results frame has exactly one of the four outcomes. *)
Definition one_outcome (r : Results.row F) : Prop :=
  Z.b2z (known_answer scoring r) + Z.b2z (unknown_answer scoring r)
  + Z.b2z (timeout_answer scoring r) + Z.b2z (memout_answer scoring r) = 1.

(** Number of selected benchmarks of logic [lg] in division [g]. *)
Definition logic_count (selection : list Selection.row) (g lg : Z) : Z :=
  Frame.len
    (filter (fun x => (Selection.division x =? g) && (Selection.logic x =? lg))
            (selected_rows selection)).

(** The column of a variant in an assembled record. *)
Definition ranked_of (k : Kind.t) (p : PodiumDivision.t F) : list (PodiumStep.t F) :=
  match k with
  | Kind.seq => PodiumDivision.sequential p
  | Kind.par => PodiumDivision.parallel p
  | Kind.sat => PodiumDivision.sat p
  | Kind.unsat => PodiumDivision.unsat p
  | Kind.twentyfour => PodiumDivision.twentyfour p
  end.

Definition winner_of (k : Kind.t) (p : PodiumDivision.t F) : string :=
  match k with
  | Kind.seq => PodiumDivision.winner_seq p
  | Kind.par => PodiumDivision.winner_par p
  | Kind.sat => PodiumDivision.winner_sat p
  | Kind.unsat => PodiumDivision.winner_unsat p
  | Kind.twentyfour => PodiumDivision.winner_24s p
  end.

(** The winner that the first entry of an emitted list determines. *)
Definition winner_rule (l : list (PodiumStep.t F)) : string :=
  match l with
  | [] => "-"%string
  | s :: _ => if PodiumStep.correctScore s =? 0 then "-"%string else PodiumStep.name s
  end.

(** The logic counts of an assembled record, from those of the joined row. *)
Definition logics_of (for_division : bool) (d : Joined.t F) : list (string * Z) :=
  PyDict.of_items
    (PyDict.sorted_items
       (if for_division
        then match Joined.logics d with
             | Some l =>
                 PyDict.of_items
                   (map (fun d2 => (Logic_name_of_int defs (fst d2), snd d2)) l)
             | None => []
             end
        else [])).

(** One left join of the reduction, on one row, and all of them. *)
Definition add_kind (fd : bool) (totals : list (Z * Z)) (config : Config)
    (results : list (Results.row F)) (d : Joined.t F) (k : Kind.t) : Joined.t F :=
  Joined.set_ranked k d
    (Frame.lookup Z.eq_dec (Joined.group d)
       (info_for_podium_step scoring fd totals k config results)).

Definition add_kinds (fd : bool) (totals : list (Z * Z)) (config : Config)
    (results : list (Results.row F)) (ks : list Kind.t) (d : Joined.t F) : Joined.t F :=
  fold_left (add_kind fd totals config results) ks d.

(** The sort columns read back from an emitted entry: [errorScore] is the
    negated error score. *)
Definition cmp_step_score (f : ScoreField) (a b : PodiumStep.t F) : comparison :=
  match f with
  | ErrorScore => Z.compare (- PodiumStep.errorScore a) (- PodiumStep.errorScore b)
  | CorrectlySolvedScore =>
      Z.compare (PodiumStep.correctScore a) (PodiumStep.correctScore b)
  | CpuTimeScore => fl_cmp F (PodiumStep.CPUScore a) (PodiumStep.CPUScore b)
  | WallclockTimeScore => fl_cmp F (PodiumStep.WallScore a) (PodiumStep.WallScore b)
  end.

Fixpoint cmp_step_scores (fs : list ScoreField)
  : PodiumStep.t F -> PodiumStep.t F -> comparison :=
  match fs with
  | [] => Cmp.triv
  | f :: fs' => Cmp.lex (cmp_step_score f) (cmp_step_scores fs')
  end.

Definition cmp_step : PodiumStep.t F -> PodiumStep.t F -> comparison :=
  Cmp.lex (cmp_step_scores (scores scoring)) (Cmp.on PodiumStep.name String.compare).

(** The groups with a selected benchmark have pairwise distinct names. *)
Definition distinct_names (for_division : bool) (selection : list Selection.row) : Prop :=
  forall g g',
    0 < total_of for_division selection g -> 0 < total_of for_division selection g' ->
    name_of_int defs for_division g = name_of_int defs for_division g' -> g = g'.

(** The rows of a variant that belong to a group. *)
Definition rows_of_group (for_division : bool) (kind : Kind.t) (config : Config)
    (results : list (Results.row F)) (g : Z) : list (Results.row F) :=
  filter (fun r => Results.col for_division r =? g)
         (filter_for scoring kind config results).

End Vocabulary.

(** ** A concrete competition *)

Module Example.
Local Open Scope string_scope.
Local Open Scope Z_scope.

(** Rationals stand for the time scores. *)
Lemma Q_order : Cmp.TotalPreorder Qcompare.
Proof.
  split; intros.
  - apply Qeq_alt. reflexivity.
  - rewrite <- Qcompare_antisym. reflexivity.
  - assert (G : forall a b, (a ?= b)%Q <> Lt <-> (b <= a)%Q).
    { intros a b. rewrite Qle_alt, <- (Qcompare_antisym a b).
      destruct (a ?= b)%Q; simpl; split; congruence. }
    rewrite G in *. eapply Qle_trans; eauto.
Qed.

Definition QFloat : FloatOrd :=
  {| fl := Q; fl_zero := 0%Q; fl_add := Qplus; fl_cmp := Qcompare;
     fl_order := Q_order |}.

Definition defs : Defs :=
  {| Division_name_of_int := fun n => if n =? 1 then "Arith" else "Bitvec";
     Logic_name_of_int :=
       fun n => if n =? 10 then "LIA" else if n =? 11 then "LRA" else "BV";
     Track_SingleQuery := 0 |}.

(** Answers: 0 unknown, 1 sat, 2 unsat, 3 timeout, 4 memout. *)
Definition scoring : Scoring QFloat :=
  {| filter_for := fun k _ rows =>
       match k with
       | Kind.sat => filter (fun r => Results.answer r =? 1) rows
       | Kind.unsat => filter (fun r => Results.answer r =? 2) rows
       | _ => rows
       end;
     scores := [ErrorScore; CorrectlySolvedScore; WallclockTimeScore; CpuTimeScore];
     known_answer := fun r => (Results.answer r =? 1) || (Results.answer r =? 2);
     sat_answer := fun r => Results.answer r =? 1;
     unsat_answer := fun r => Results.answer r =? 2;
     unknown_answer := fun r => Results.answer r =? 0;
     timeout_answer := fun r => Results.answer r =? 3;
     memout_answer := fun r => Results.answer r =? 4 |}.

Definition config : Config :=
  {| current_year := 2024; timelimit_s := 1200; memlimit_M := 30000 |}.

(** The names of the example are ASCII, and on an ASCII string [s.lower()]
    maps A-Z to a-z and keeps every other character: this is the instance
    of [str_lower] for the example, and for it only. *)
Definition lower_ascii (c : ascii) : ascii :=
  let n := nat_of_ascii c in
  if andb (Nat.leb 65 n) (Nat.leb n 90) then ascii_of_nat (n + 32) else c.

Fixpoint lower (s : string) : string :=
  match s with
  | EmptyString => EmptyString
  | String c s' => String (lower_ascii c) (lower s')
  end.

#[export] Instance ascii_lower : PyStr := {| str_lower := lower |}.

Definition res (dis : bool) (tr : Z) (s : string) (d l a e c : Z) (cpu wall : QFloat)
  : Results.raw QFloat :=
  {| Results.disagreements := dis;
     Results.drop_disagreements :=
       {| Results.track := tr;
          Results.drop_track :=
            {| Results.solver := s; Results.division := d; Results.logic := l;
               Results.answer := a; Results.error_score := e;
               Results.correctly_solved_score := c;
               Results.cpu_time_score := cpu; Results.wallclock_time_score := wall |} |} |}.

Definition sel (d l : Z) (b : bool) : Selection.row :=
  {| Selection.division := d; Selection.logic := l; Selection.selected := b |}.

(** Division 1 has three selected benchmarks, division 2 has one and no
    result. *)
Definition selection : list Selection.row :=
  [sel 1 10 true; sel 1 11 true; sel 1 10 true; sel 2 12 true; sel 1 11 false].

Definition results : list (Results.raw QFloat) :=
  [ res false 0 "A" 1 10 1 0 1 (-(3#2))%Q (-1)%Q;
    res false 0 "B" 1 10 3 0 0 0%Q 0%Q;
    res false 0 "A" 1 11 2 (-1) 0 (-(1#2))%Q (-1)%Q;
    res true 0 "B" 1 11 1 (-1) 0 0%Q 0%Q;
    res false 1 "B" 1 11 1 0 1 0%Q 0%Q;
    res false 0 "a" 1 10 1 0 1 (-(3#2))%Q (-1)%Q;
    res false 0 "a" 1 11 2 0 1 (-(1#2))%Q (-1)%Q ].

(** The same frame without the flagged row. *)
Definition results_unflagged : list (Results.raw QFloat) :=
  [ res false 0 "A" 1 10 1 0 1 (-(3#2))%Q (-1)%Q;
    res false 0 "B" 1 10 3 0 0 0%Q 0%Q;
    res false 0 "A" 1 11 2 (-1) 0 (-(1#2))%Q (-1)%Q;
    res false 1 "B" 1 11 1 0 1 0%Q 0%Q;
    res false 0 "a" 1 10 1 0 1 (-(3#2))%Q (-1)%Q;
    res false 0 "a" 1 11 2 0 1 (-(1#2))%Q (-1)%Q ].

Definition tracked : list (Results.tracked QFloat) := undisputed results.

(** The same frame without the row of another track. *)
Definition tracked_single : list (Results.tracked QFloat) :=
  filter (fun r => Results.track r =? 0) tracked.

Definition rows : list (Results.row QFloat) := single_query defs tracked.

Definition totals : list (Z * Z) := len_by_division true (selected_rows selection).

(** One benchmark, solved twice by the same solver. *)
Definition selection_one : list Selection.row := [sel 1 10 true].

Definition results_twice : list (Results.tracked QFloat) :=
  map Results.drop_disagreements
    [ res false 0 "A" 1 10 1 0 1 (-1)%Q (-1)%Q;
      res false 0 "A" 1 10 1 0 1 (-1)%Q (-1)%Q ].

(** One benchmark, solved by a solver whose name is a dash. *)
Definition results_dash : list (Results.tracked QFloat) :=
  map Results.drop_disagreements [ res false 0 "-" 1 10 1 0 1 (-1)%Q (-1)%Q ].


(** The ranked list of division 1 for the sequential variant. *)
Definition ranked_arith_seq : list (Agg.t QFloat) :=
  Eval vm_compute in
    match Frame.lookup Z.eq_dec 1
            (info_for_podium_step scoring true totals Kind.seq config rows) with
    | Some l => l
    | None => []
    end.

(** The records grouped by division, and by logic. *)
Definition records : list (string * PodiumDivision.t QFloat) :=
  Eval vm_compute in
    match sq_generate_datas defs scoring config selection tracked true with
    | Ok out => out
    | Err _ => []
    end.

Definition records_by_logic : list (string * PodiumDivision.t QFloat) :=
  Eval vm_compute in
    match sq_generate_datas defs scoring config selection tracked false with
    | Ok out => out
    | Err _ => []
    end.

End Example.

(** ** Comparator facts *)

Module CmpFacts.
Import Cmp.

Section Derived.

Context {A : Type} (c : A -> A -> comparison) {TP : TotalPreorder c}.

Lemma eq_sym x y : c x y = Eq -> c y x = Eq.
Proof. intros H. rewrite (cmp_antisym (cmp := c) x y), H. reflexivity. Qed.

Lemma gt_lt x y : c x y = Gt <-> c y x = Lt.
Proof.
  rewrite (cmp_antisym (cmp := c) x y). destruct (c x y); simpl; split; congruence.
Qed.

Lemma not_lt_not_gt x y : c x y <> Lt <-> c y x <> Gt.
Proof.
  rewrite (cmp_antisym (cmp := c) x y). destruct (c x y); simpl; split; congruence.
Qed.

(** A strict step anywhere in a descending chain makes the chain strict. *)
Lemma ge_trans_strict x y z :
  c x y <> Lt -> c y z <> Lt -> c x y = Gt \/ c y z = Gt -> c x z = Gt.
Proof.
  intros Hxy Hyz Hs.
  pose proof (cmp_ge_trans (cmp := c) x y z Hxy Hyz) as Hxz.
  destruct (c x z) eqn:E; [exfalso | congruence | reflexivity].
  apply eq_sym in E.
  assert (Hzx : c z x <> Lt) by congruence.
  pose proof (cmp_ge_trans (cmp := c) z x y Hzx Hxy) as Hzy.
  pose proof (cmp_ge_trans (cmp := c) y z x Hyz Hzx) as Hyx.
  destruct Hs as [Hs | Hs]; apply gt_lt in Hs; congruence.
Qed.

Lemma eq_trans x y z : c x y = Eq -> c y z = Eq -> c x z = Eq.
Proof.
  intros Hxy Hyz.
  assert (H1 : c x z <> Lt) by (apply (cmp_ge_trans (cmp := c) x y z); congruence).
  assert (H2 : c z x <> Lt).
  { apply (cmp_ge_trans (cmp := c) z y x);
      rewrite ?(eq_sym _ _ Hxy), ?(eq_sym _ _ Hyz); congruence. }
  apply not_lt_not_gt in H2. destruct (c x z); congruence.
Qed.

Lemma geb_total x y : geb c x y = true \/ geb c y x = true.
Proof.
  unfold geb. rewrite (cmp_antisym (cmp := c) x y). destruct (c x y); simpl; auto.
Qed.

Lemma geb_trans x y z : geb c x y = true -> geb c y z = true -> geb c x z = true.
Proof.
  unfold geb. intros Hxy Hyz.
  assert (c x z <> Lt).
  { apply (cmp_ge_trans (cmp := c) x y z); intros E; rewrite E in *; discriminate. }
  destruct (c x z); congruence.
Qed.

Lemma leb_total x y : leb c x y = true \/ leb c y x = true.
Proof.
  unfold leb. rewrite (cmp_antisym (cmp := c) x y). destruct (c x y); simpl; auto.
Qed.

Lemma leb_trans x y z : leb c x y = true -> leb c y z = true -> leb c x z = true.
Proof.
  unfold leb. intros Hxy Hyz.
  assert (c z x <> Lt).
  { apply (cmp_ge_trans (cmp := c) z y x); apply not_lt_not_gt;
      intros E; rewrite E in *; discriminate. }
  apply not_lt_not_gt in H. destruct (c x z); congruence.
Qed.

End Derived.

#[export] Instance triv_order {A : Type} : TotalPreorder (@triv A).
Proof. split; unfold triv; intros; simpl; congruence. Qed.

#[export] Instance on_order {A B : Type} (f : A -> B) (c : B -> B -> comparison)
  {TP : TotalPreorder c} : TotalPreorder (on f c).
Proof.
  split; unfold on; intros.
  - apply cmp_refl.
  - apply cmp_antisym.
  - eapply cmp_ge_trans; eauto.
Qed.

#[export] Instance lex_order {A : Type} (c1 c2 : A -> A -> comparison)
  {TP1 : TotalPreorder c1} {TP2 : TotalPreorder c2} : TotalPreorder (lex c1 c2).
Proof.
  split; unfold lex.
  - intros x. rewrite (cmp_refl (cmp := c1)). apply cmp_refl.
  - intros x y. rewrite (cmp_antisym (cmp := c1) x y).
    destruct (c1 x y); simpl; auto. apply cmp_antisym.
  - intros x y z Hxy Hyz.
    destruct (c1 x y) eqn:Exy; [ | congruence | ];
      (destruct (c1 y z) eqn:Eyz; [ | congruence | ]).
    + rewrite (eq_trans c1 x y z Exy Eyz). eapply cmp_ge_trans; eauto.
    + rewrite (ge_trans_strict c1 x y z); try congruence. auto.
    + rewrite (ge_trans_strict c1 x y z); try congruence. auto.
    + rewrite (ge_trans_strict c1 x y z); try congruence. auto.
Qed.

#[export] Instance Z_order : TotalPreorder Z.compare.
Proof.
  split; intros.
  - apply Z.compare_refl.
  - apply Z.compare_antisym.
  - rewrite Z.compare_nlt_iff in *. lia.
Qed.

Lemma ascii_compare_trans a b c :
  Ascii.compare a b <> Lt -> Ascii.compare b c <> Lt -> Ascii.compare a c <> Lt.
Proof.
  unfold Ascii.compare. rewrite !N.compare_nlt_iff. lia.
Qed.

Lemma ascii_compare_refl a : Ascii.compare a a = Eq.
Proof. unfold Ascii.compare. apply N.compare_refl. Qed.

Lemma string_compare_refl s : String.compare s s = Eq.
Proof.
  induction s as [| a s IH]; simpl; auto. now rewrite ascii_compare_refl.
Qed.

Lemma string_compare_eq s t : String.compare s t = Eq <-> s = t.
Proof.
  split; [apply String.compare_eq_iff | intros ->; apply string_compare_refl].
Qed.

Lemma string_compare_trans s : forall t u,
  String.compare s t <> Lt -> String.compare t u <> Lt -> String.compare s u <> Lt.
Proof.
  induction s as [| a s IH]; intros [| b t] [| c u]; simpl; try congruence.
  unfold Ascii.compare.
  destruct (N.compare_spec (N_of_ascii a) (N_of_ascii b)) as [Eab | Lab | Gab];
    try congruence;
    destruct (N.compare_spec (N_of_ascii b) (N_of_ascii c)) as [Ebc | Lbc | Gbc];
    try congruence; intros H1 H2.
  - rewrite Eab, Ebc, N.compare_refl. eauto.
  - rewrite Eab. apply N.compare_gt_iff in Gbc. now rewrite Gbc.
  - rewrite <- Ebc. apply N.compare_gt_iff in Gab. now rewrite Gab.
  - assert (G : (N_of_ascii c < N_of_ascii a)%N) by lia.
    apply N.compare_gt_iff in G. now rewrite G.
Qed.

#[export] Instance string_order : TotalPreorder String.compare.
Proof.
  split; intros.
  - apply string_compare_refl.
  - apply String.compare_antisym.
  - eapply string_compare_trans; eauto.
Qed.

End CmpFacts.

(** ** Facts about the data-frame operations *)

Module FrameFacts.
Import Frame.

Section Keys.

Context {A K : Type}.
Variable K_dec : forall x y : K, {x = y} + {x <> y}.

Lemma keyb_true k k' : keyb K_dec k k' = true <-> k = k'.
Proof. unfold keyb. destruct (K_dec k k'); split; congruence. Qed.

Lemma keyb_refl k : keyb K_dec k k = true.
Proof. now apply keyb_true. Qed.

Lemma In_unique k ks : In k (unique K_dec ks) <-> In k ks.
Proof.
  induction ks as [| a ks IH]; simpl; [tauto |].
  rewrite filter_In, IH, negb_true_iff.
  destruct (K_dec a k) as [-> | n]; [tauto |].
  assert (keyb K_dec a k = false).
  { destruct (keyb K_dec a k) eqn:E; auto. apply keyb_true in E. contradiction. }
  tauto.
Qed.

Lemma NoDup_unique ks : NoDup (unique K_dec ks).
Proof.
  induction ks as [| a ks IH]; simpl; constructor.
  - rewrite filter_In, keyb_refl. simpl. intros [_ H]. discriminate.
  - now apply NoDup_filter.
Qed.

Lemma unique_NoDup ks : NoDup ks -> unique K_dec ks = ks.
Proof.
  induction 1 as [| a ks Hn Hd IH]; simpl; auto.
  rewrite IH. f_equal.
  apply forallb_filter_id, forallb_forall. intros k Hk.
  apply negb_true_iff. destruct (keyb K_dec a k) eqn:E; auto.
  apply keyb_true in E. subst. contradiction.
Qed.

Lemma has_dup_NoDup ks : NoDup ks -> has_dup K_dec ks = false.
Proof.
  intros H. unfold has_dup. rewrite unique_NoDup by assumption.
  now rewrite Nat.eqb_refl.
Qed.

Lemma group_by_keys (key : A -> K) rows :
  map fst (group_by K_dec key rows) = unique K_dec (map key rows).
Proof. unfold group_by. rewrite map_map. simpl. apply map_id. Qed.

Lemma NoDup_group_by (key : A -> K) rows :
  NoDup (map fst (group_by K_dec key rows)).
Proof. rewrite group_by_keys. apply NoDup_unique. Qed.

Lemma In_group_by (key : A -> K) rows k b :
  In (k, b) (group_by K_dec key rows) <->
  In k (map key rows) /\ b = filter (fun r => keyb K_dec (key r) k) rows.
Proof.
  unfold group_by. rewrite in_map_iff. split.
  - intros (k' & E & Hk). inversion E; subst. now rewrite In_unique in Hk.
  - intros (Hk & ->). exists k. now rewrite In_unique.
Qed.

Lemma lookup_None {B : Type} k (l : list (K * B)) :
  lookup K_dec k l = None <-> ~ In k (map fst l).
Proof.
  induction l as [| [k' b] l IH]; simpl; [tauto |].
  destruct (K_dec k k') as [-> | n]; [split; [discriminate | tauto] |].
  rewrite IH. split; [intros H [E | I]; [congruence | tauto] | tauto].
Qed.

Lemma lookup_Some_In {B : Type} k (l : list (K * B)) b :
  lookup K_dec k l = Some b -> In (k, b) l.
Proof.
  induction l as [| [k' b'] l IH]; simpl; [discriminate |].
  destruct (K_dec k k') as [-> | n]; [intros [= ->]; auto | auto].
Qed.

Lemma lookup_In {B : Type} k (l : list (K * B)) b :
  NoDup (map fst l) -> In (k, b) l -> lookup K_dec k l = Some b.
Proof.
  induction l as [| [k' b'] l IH]; simpl; [tauto |].
  intros Hd [E | I].
  - inversion E; subst. destruct (K_dec k k); congruence.
  - inversion Hd; subst. destruct (K_dec k k') as [-> | n]; auto.
    exfalso. apply H1. change k' with (fst (k', b)). now apply in_map.
Qed.

Lemma left_join_NoDup {B C : Type} (key : A -> K) (add : A -> option B -> C)
    left (right : list (K * B)) :
  NoDup (map key left) -> NoDup (map fst right) ->
  left_join K_dec key add left right =
  Ok (map (fun a => add a (lookup K_dec (key a) right)) left).
Proof.
  intros H1 H2. unfold left_join. now rewrite !has_dup_NoDup.
Qed.

End Keys.

Section Sorting.

Context {A : Type} (before : A -> A -> bool).

Lemma insert_perm x l : Permutation (insert before x l) (x :: l).
Proof.
  induction l as [| y l IH]; simpl; auto.
  destruct (before x y); auto.
  rewrite IH. apply perm_swap.
Qed.

Lemma sort_perm l : Permutation (sort before l) l.
Proof.
  induction l as [| x l IH]; simpl; auto.
  rewrite insert_perm. now constructor.
Qed.

Hypothesis before_total : forall x y, before x y = true \/ before y x = true.
Hypothesis before_trans :
  forall x y z, before x y = true -> before y z = true -> before x z = true.

Lemma insert_sorted x l :
  StronglySorted (fun a b => before a b = true) l ->
  StronglySorted (fun a b => before a b = true) (insert before x l).
Proof.
  induction 1 as [| y l Hs IH Hf]; simpl.
  - repeat constructor.
  - destruct (before x y) eqn:E.
    + constructor; [now constructor |].
      constructor; auto.
      rewrite Forall_forall in *. eauto.
    + constructor; auto.
      rewrite Forall_forall in *. intros z Hz.
      apply (Permutation_in _ (insert_perm x l)) in Hz.
      destruct Hz as [<- | Hz]; auto.
      destruct (before_total x y); congruence.
Qed.

Lemma sort_sorted l : StronglySorted (fun a b => before a b = true) (sort before l).
Proof.
  induction l as [| x l IH]; simpl; [constructor | now apply insert_sorted].
Qed.

End Sorting.

Lemma StronglySorted_filter {A : Type} (R : A -> A -> Prop) (p : A -> bool) l :
  StronglySorted R l -> StronglySorted R (filter p l).
Proof.
  induction 1 as [| x l Hs IH Hf]; simpl; [constructor |].
  destruct (p x); auto. constructor; auto.
  rewrite Forall_forall in *. intros y Hy. apply filter_In in Hy. apply Hf, Hy.
Qed.

Lemma StronglySorted_map {A B : Type} (R : A -> A -> Prop) (S : B -> B -> Prop)
    (f : A -> B) l :
  (forall x y, In x l -> In y l -> R x y -> S (f x) (f y)) ->
  StronglySorted R l -> StronglySorted S (map f l).
Proof.
  intros H Hs. induction Hs as [| x l Hs IH Hf]; simpl; constructor.
  - apply IH. intros; apply H; simpl; auto.
  - rewrite Forall_forall in *. intros y Hy.
    apply in_map_iff in Hy. destruct Hy as (z & <- & Hz).
    apply H; simpl; auto.
Qed.

(** The columns of a fixed width. *)
Lemma wrap_u32_range z : 0 <= wrap_u32 z < 2 ^ 32.
Proof. unfold wrap_u32. apply Z.mod_pos_bound. reflexivity. Qed.

Lemma wrap_u32_small z : 0 <= z < 2 ^ 32 -> wrap_u32 z = z.
Proof. intros H. unfold wrap_u32. now apply Z.mod_small. Qed.

Lemma wrap_u32_neg z : - 2 ^ 32 <= z < 0 -> wrap_u32 z = z + 2 ^ 32.
Proof.
  intros H. unfold wrap_u32.
  rewrite <- (Z.mod_small (z + 2 ^ 32) (2 ^ 32)) by lia.
  replace (z + 2 ^ 32) with (z + 1 * 2 ^ 32) by lia.
  now rewrite Z.mod_add.
Qed.




Lemma StronglySorted_impl {A : Type} (R S : A -> A -> Prop) l :
  (forall x y, R x y -> S x y) -> StronglySorted R l -> StronglySorted S l.
Proof.
  intros H. induction 1 as [| x l Hs IH Hf]; constructor; auto.
  eapply Forall_impl; [| exact Hf]. auto.
Qed.

End FrameFacts.

(** ** Facts about the aggregation *)

Section Aggregation.
Import Frame FrameFacts.

Context {F : FloatOrd}.
Variable defs : Defs.
Variable scoring : Scoring F.

Lemma keyb_Z a b : keyb Z.eq_dec a b = (a =? b).
Proof.
  unfold keyb. destruct (Z.eq_dec a b) as [-> | n].
  - now rewrite Z.eqb_refl.
  - symmetry. now apply Z.eqb_neq.
Qed.

Lemma keyb_key g s g' s' :
  keyb key_dec (g, s) (g', s') = (g =? g') && String.eqb s s'.
Proof.
  unfold keyb. destruct (key_dec (g, s) (g', s')) as [E | n].
  - inversion E; subst. now rewrite Z.eqb_refl, String.eqb_refl.
  - symmetry. apply andb_false_iff.
    destruct (Z.eqb_spec g g'); [| now left].
    destruct (String.eqb_spec s s'); [| now right]. congruence.
Qed.

Lemma In_len_by_division fd selection g t :
  In (g, t) (len_by_division fd selection) <->
  In g (map (Selection.col fd) selection) /\
  t = Frame.len (filter (fun x => Selection.col fd x =? g) selection).
Proof.
  unfold len_by_division. rewrite in_map_iff. split.
  - intros ([k b] & E & H). simpl in E. inversion E; subst.
    apply In_group_by in H. destruct H as [H ->]. split; auto.
    f_equal. apply filter_ext. intros. apply keyb_Z.
  - intros [H ->]. eexists (g, _). split; [| apply In_group_by; split; eauto].
    simpl. f_equal. f_equal. apply filter_ext. intros. apply keyb_Z.
Qed.

Lemma NoDup_len_by_division fd selection :
  NoDup (map fst (len_by_division fd selection)).
Proof.
  unfold len_by_division. rewrite map_map. simpl.
  apply (NoDup_group_by Z.eq_dec).
Qed.

Lemma filter_key_absent (totals : list (Z * Z)) g :
  ~ In g (map fst totals) -> filter (fun x => fst x =? g) totals = [].
Proof.
  induction totals as [| [g' t'] totals IH]; simpl; auto.
  intros H. destruct (Z.eqb_spec g' g); [tauto | apply IH; tauto].
Qed.

Lemma filter_key_unique (totals : list (Z * Z)) g t :
  NoDup (map fst totals) -> In (g, t) totals ->
  filter (fun x => fst x =? g) totals = [(g, t)].
Proof.
  induction totals as [| [g' t'] totals IH]; simpl; [tauto |].
  intros Hd [E | I]; inversion Hd; subst.
  - inversion E; subst. rewrite Z.eqb_refl. f_equal.
    now apply filter_key_absent.
  - destruct (Z.eqb_spec g' g) as [-> | n]; auto.
    exfalso. apply H1. change g with (fst (g, t)). now apply in_map.
Qed.

Lemma bucket_present fd totals kind config results g s t :
  NoDup (map fst totals) -> In (g, t) totals ->
  bucket scoring fd totals kind config results g s =
  map (fun r => (r, t)) (contributed scoring fd kind config results g s).
Proof.
  intros Hd Hin. unfold bucket, contributed, intersect.
  induction (filter_for scoring kind config results) as [| r rs IH]; simpl; auto.
  rewrite filter_app, IH. clear IH.
  destruct (Z.eqb_spec (Results.col fd r) g) as [E | n]; simpl.
  - rewrite E, (filter_key_unique totals g t Hd Hin). simpl.
    unfold bucket_key at 1. simpl. rewrite keyb_key, E, Z.eqb_refl. simpl.
    destruct (String.eqb (Results.solver r) s); reflexivity.
  - match goal with |- ?l ++ _ = _ => assert (H : l = []) end; [| now rewrite H].
    induction (filter (fun x => fst x =? Results.col fd r) totals) as [| x xs IH];
      simpl; auto.
    unfold bucket_key at 1. simpl. rewrite keyb_key.
    destruct (Z.eqb_spec (Results.col fd r) g); [contradiction | simpl; auto].
Qed.

Lemma bucket_absent fd totals kind config results g s :
  ~ In g (map fst totals) -> bucket scoring fd totals kind config results g s = [].
Proof.
  intros Hn. unfold bucket, intersect.
  induction (filter_for scoring kind config results) as [| r rs IH]; simpl; auto.
  rewrite filter_app, IH, app_nil_r. clear IH.
  destruct (Z.eqb_spec (Results.col fd r) g) as [E | n].
  - now rewrite E, filter_key_absent.
  - induction (filter (fun x => fst x =? Results.col fd r) totals) as [| x xs IH];
      simpl; auto.
    unfold bucket_key at 1. simpl. rewrite keyb_key.
    destruct (Z.eqb_spec (Results.col fd r) g); [contradiction | simpl; auto].
Qed.

(** The rows of the frame before the sort: one per non-empty bucket. *)
Lemma In_aggregated fd totals kind config results g a :
  In (g, a) (aggregated scoring fd totals kind config results) <->
  bucket scoring fd totals kind config results g (Agg.solver a) <> [] /\
  (g, a) = agg_bucket scoring (g, Agg.solver a)
             (bucket scoring fd totals kind config results g (Agg.solver a)).
Proof.
  unfold aggregated. rewrite in_map_iff. split.
  - intros ([[g' s] b] & E & H). simpl in E.
    apply In_group_by in H. destruct H as [Hk ->].
    inversion E; subst. simpl. fold (bucket scoring fd totals kind config results g s).
    split; auto.
    apply in_map_iff in Hk. destruct Hk as (x & Ex & Hx).
    intros Hb. assert (Hi : In x (bucket scoring fd totals kind config results g s)).
    { apply filter_In. split; auto. rewrite Ex. apply keyb_refl. }
    rewrite Hb in Hi. exact Hi.
  - intros [Hne E].
    exists ((g, Agg.solver a), bucket scoring fd totals kind config results g (Agg.solver a)).
    split; [now rewrite E |].
    apply In_group_by. split; auto.
    destruct (bucket scoring fd totals kind config results g (Agg.solver a)) as [| x xs] eqn:Eb;
      [congruence |].
    assert (Hi : In x (bucket scoring fd totals kind config results g (Agg.solver a)))
      by (rewrite Eb; now left).
    apply filter_In in Hi. destruct Hi as [Hi Hk]. apply keyb_true in Hk.
    rewrite <- Hk. now apply in_map.
Qed.

Lemma NoDup_aggregated_keys fd totals kind config results :
  NoDup (map (fun x => (fst x, Agg.solver (snd x)))
             (aggregated scoring fd totals kind config results)).
Proof.
  unfold aggregated. rewrite map_map. simpl.
  erewrite map_ext; [apply (NoDup_group_by key_dec) |].
  intros [[g s] b]. reflexivity.
Qed.

Lemma In_info fd totals kind config results g l :
  In (g, l) (info_for_podium_step scoring fd totals kind config results) <->
  In g (map fst (sorted_frame scoring fd totals kind config results)) /\
  l = map snd (filter (fun x => keyb Z.eq_dec (fst x) g)
                 (sorted_frame scoring fd totals kind config results)).
Proof.
  unfold info_for_podium_step. fold (sorted_frame scoring fd totals kind config results).
  rewrite in_map_iff. split.
  - intros ([g' b] & E & H). simpl in E. inversion E; subst.
    apply In_group_by in H. destruct H as [H ->]. auto.
  - intros [H ->]. eexists (g, _). split; [reflexivity |].
    apply In_group_by. auto.
Qed.

Lemma NoDup_info_keys fd totals kind config results :
  NoDup (map fst (info_for_podium_step scoring fd totals kind config results)).
Proof.
  unfold info_for_podium_step. rewrite map_map. simpl.
  apply (NoDup_group_by Z.eq_dec).
Qed.

Lemma In_sorted_frame fd totals kind config results x :
  In x (sorted_frame scoring fd totals kind config results) <->
  In x (aggregated scoring fd totals kind config results).
Proof.
  unfold sorted_frame. split; apply Permutation_in;
    [| symmetry]; apply sort_perm.
Qed.

(** The entries of the ranked list of [g] are the aggregated rows of [g]. *)
Lemma In_ranked fd totals kind config results g l a :
  In (g, l) (info_for_podium_step scoring fd totals kind config results) ->
  In a l <-> In (g, a) (aggregated scoring fd totals kind config results).
Proof.
  intros H. apply In_info in H. destruct H as [_ ->].
  rewrite in_map_iff, <- In_sorted_frame. split.
  - intros ([g' a'] & E & H). simpl in E. subst a'.
    apply filter_In in H. destruct H as [H Hk]. apply keyb_true in Hk.
    simpl in Hk. now subst.
  - intros H. exists (g, a). split; auto.
    apply filter_In. split; auto. apply keyb_refl.
Qed.

(** A group with a ranked list has an aggregated row. *)
Lemma info_key_iff fd totals kind config results g :
  In g (map fst (info_for_podium_step scoring fd totals kind config results)) <->
  In g (map fst (aggregated scoring fd totals kind config results)).
Proof.
  rewrite !in_map_iff. split.
  - intros ([g' l] & E & H). simpl in E. subst g'.
    apply In_info in H. destruct H as [H _].
    apply in_map_iff in H. destruct H as (x & E & H).
    exists x. split; auto. now apply In_sorted_frame.
  - intros (x & E & H). eexists (g, _). split; [reflexivity |].
    apply In_info. split; [| reflexivity].
    apply in_map_iff. exists x. split; auto. now apply In_sorted_frame.
Qed.

End Aggregation.

(** ** The order of a ranked list *)

Section Ranking.
Import Frame FrameFacts Cmp CmpFacts.

Context {F : FloatOrd}.
Variable scoring : Scoring F.

Lemma cmp_score_order (f : ScoreField) : TotalPreorder (cmp_score (F := F) f).
Proof.
  pose proof (fl_order F).
  destruct f.
  - exact (on_order Agg.error_score Z.compare).
  - exact (on_order Agg.correctly_solved_score Z.compare).
  - exact (on_order Agg.cpu_time_score (fl_cmp F)).
  - exact (on_order Agg.wallclock_time_score (fl_cmp F)).
Qed.

Lemma cmp_scores_order (fs : list ScoreField) : TotalPreorder (cmp_scores (F := F) fs).
Proof.
  induction fs as [| f fs IH]; simpl.
  - apply triv_order.
  - apply lex_order; [apply cmp_score_order | exact IH].
Qed.

Lemma cmp_rank_order : TotalPreorder (cmp_rank scoring).
Proof.
  unfold cmp_rank. apply lex_order; [apply cmp_scores_order | ].
  apply on_order, string_order.
Qed.

Lemma cmp_sort_order : TotalPreorder (cmp_sort scoring).
Proof.
  unfold cmp_sort.
  apply lex_order; apply on_order; [apply Z_order | apply cmp_rank_order].
Qed.

(** Entries that tie on every sort column carry the same solver. *)
Lemma cmp_rank_Eq a b : cmp_rank scoring a b = Eq -> Agg.solver a = Agg.solver b.
Proof.
  unfold cmp_rank, lex, on. intros H.
  apply String.compare_eq_iff.
  destruct (cmp_scores (scores scoring) a b); congruence.
Qed.

Lemma cmp_sort_same_group g a b :
  cmp_sort scoring (g, a) (g, b) = cmp_rank scoring a b.
Proof. unfold cmp_sort, lex, on. simpl. now rewrite Z.compare_refl. Qed.

Lemma NoDup_map_filter {A B : Type} (f : A -> B) (p : A -> bool) l :
  NoDup (map f l) -> NoDup (map f (filter p l)).
Proof.
  induction l as [| x l IH]; simpl; auto.
  intros H. inversion H; subst. destruct (p x); simpl; auto.
  constructor; auto.
  intros Hin. apply H2. apply in_map_iff in Hin. destruct Hin as (y & E & Hy).
  apply filter_In in Hy. rewrite <- E. apply in_map. tauto.
Qed.

Lemma StronglySorted_NoDup {A B : Type} (R : A -> A -> Prop) (f : A -> B) l :
  StronglySorted R l -> NoDup (map f l) ->
  StronglySorted (fun x y => R x y /\ f x <> f y) l.
Proof.
  induction 1 as [| x l Hs IH Hf]; simpl; intros Hd; constructor;
    inversion Hd; subst; auto.
  rewrite Forall_forall in *. intros y Hy. split; auto.
  intros E. apply H1. rewrite E. now apply in_map.
Qed.


(** Within one group the sorted frame is strictly descending for
    [cmp_rank]. *)
Lemma ranked_strict fd totals kind config results g l :
  In (g, l) (info_for_podium_step scoring fd totals kind config results) ->
  StronglySorted (fun a b => cmp_rank scoring a b = Gt) l.
Proof.
  intros H. apply In_info in H. destruct H as [_ ->].
  pose proof cmp_sort_order as TP.
  set (key := fun x : Z * Agg.t F => (fst x, Agg.solver (snd x))).
  assert (Hs : StronglySorted (fun x y => geb (cmp_sort scoring) x y = true)
                 (sorted_frame scoring fd totals kind config results)).
  { apply sort_sorted; [apply geb_total | apply geb_trans]; exact TP. }
  assert (Hd : NoDup (map key (sorted_frame scoring fd totals kind config results))).
  { eapply Permutation_NoDup;
      [| apply (NoDup_aggregated_keys scoring fd totals kind config results)].
    apply Permutation_map. symmetry. apply sort_perm. }
  apply (StronglySorted_filter _ (fun x => keyb Z.eq_dec (fst x) g)) in Hs.
  apply (NoDup_map_filter key (fun x => keyb Z.eq_dec (fst x) g)) in Hd.
  pose proof (StronglySorted_NoDup _ key _ Hs Hd) as Hsd.
  eapply StronglySorted_map; [| exact Hsd].
  intros [gx a] [gy b] Hx Hy [Hge Hne].
  apply filter_In in Hx, Hy. destruct Hx as [_ Hx], Hy as [_ Hy].
  apply keyb_true in Hx, Hy. simpl in Hx, Hy. subst gx gy. simpl.
  unfold key in Hne. simpl in Hne.
  unfold geb in Hge. rewrite cmp_sort_same_group in Hge.
  destruct (cmp_rank scoring a b) eqn:E; try discriminate; auto.
  apply cmp_rank_Eq in E. congruence.
Qed.

(** Two strictly sorted lists with the same elements are equal. *)
Lemma strictly_sorted_unique {A : Type} (R : A -> A -> Prop) :
  (forall x y, R x y -> R y x -> False) ->
  forall l1 l2, StronglySorted R l1 -> StronglySorted R l2 -> Permutation l1 l2 ->
                l1 = l2.
Proof.
  intros Hasym. induction l1 as [| x l1 IH]; intros l2 H1 H2 Hp.
  - apply Permutation_nil in Hp. now subst.
  - destruct l2 as [| y l2]; [apply Permutation_sym, Permutation_nil in Hp; discriminate |].
    inversion H1 as [| ? ? Hs1 Hf1]; inversion H2 as [| ? ? Hs2 Hf2]; subst.
    rewrite Forall_forall in Hf1, Hf2.
    assert (E : x = y).
    { assert (Hx : In x (y :: l2)) by (eapply Permutation_in; [exact Hp | now left]).
      assert (Hy : In y (x :: l1))
        by (eapply Permutation_in; [symmetry; exact Hp | now left]).
      destruct Hx as [E | Hx]; [now symmetry |].
      destruct Hy as [E | Hy]; [exact E |].
      exfalso. apply (Hasym x y); auto. }
    subst y. f_equal. apply IH; auto. eapply Permutation_cons_inv; eauto.
Qed.

(** The sort has one possible result: whatever algorithm the engine runs,
    stable or not, a descending arrangement of the aggregated frame is the
    frame that [Frame.sort] returns. *)
Lemma sorted_frame_unique fd totals kind config results l :
  Permutation l (aggregated scoring fd totals kind config results) ->
  StronglySorted (fun x y => cmp_sort scoring x y <> Lt) l ->
  l = sorted_frame scoring fd totals kind config results.
Proof.
  intros Hp Hs. pose proof cmp_sort_order as TP.
  set (key := fun x : Z * Agg.t F => (fst x, Agg.solver (snd x))).
  assert (Hstrict : forall l',
             Permutation l' (aggregated scoring fd totals kind config results) ->
             StronglySorted (fun x y => cmp_sort scoring x y <> Lt) l' ->
             StronglySorted (fun x y => cmp_sort scoring x y = Gt) l').
  { intros l' Hp' Hs'.
    assert (Hd : NoDup (map key l')).
    { eapply Permutation_NoDup;
        [| apply (NoDup_aggregated_keys scoring fd totals kind config results)].
      apply Permutation_map. now symmetry. }
    pose proof (StronglySorted_NoDup _ key _ Hs' Hd) as Hsd.
    eapply StronglySorted_map with (f := fun a => a) in Hsd.
    - rewrite map_id in Hsd. exact Hsd.
    - simpl. intros [gx a] [gy b] _ _ [Hge Hne].
      destruct (cmp_sort scoring (gx, a) (gy, b)) eqn:E; try congruence.
      exfalso. apply Hne. unfold key. simpl.
      unfold cmp_sort, lex, on in E. simpl in E.
      destruct (Z.compare_spec gx gy); try discriminate. subst gy.
      apply cmp_rank_Eq in E. congruence. }
  apply (strictly_sorted_unique (fun x y => cmp_sort scoring x y = Gt)).
  - intros x y Hxy Hyx. apply (gt_lt (cmp_sort scoring)) in Hyx. congruence.
  - now apply Hstrict.
  - apply Hstrict; [apply sort_perm |].
    apply StronglySorted_impl with (R := fun x y => geb (cmp_sort scoring) x y = true).
    + intros x y H. unfold geb in H. destruct (cmp_sort scoring x y); congruence.
    + apply sort_sorted; [apply geb_total | apply geb_trans]; exact TP.
  - etransitivity; [exact Hp |]. symmetry. apply sort_perm.
Qed.


End Ranking.

(** ** The aggregate of one solver *)

Section Entries.
Import Frame FrameFacts.

Context {F : FloatOrd}.
Variable defs : Defs.
Variable scoring : Scoring F.

Lemma agg_bucket_present g s t rows :
  rows <> [] ->
  agg_bucket scoring (g, s) (map (fun r => (r, t)) rows) = (g, aggregate_of scoring s t rows).
Proof.
  intros Hne. unfold agg_bucket, aggregate_of. simpl.
  rewrite !map_map. simpl. rewrite map_id.
  unfold Frame.len. rewrite length_map.
  destruct rows; [congruence | reflexivity].
Qed.

(** An aggregated row of group [g] is the aggregate of the rows its solver
    contributes, and [g] has a total. *)
Lemma aggregated_entry fd totals kind config results g a :
  NoDup (map fst totals) ->
  In (g, a) (aggregated scoring fd totals kind config results) <->
  exists t, In (g, t) totals /\
            contributed scoring fd kind config results g (Agg.solver a) <> [] /\
            a = aggregate_of scoring (Agg.solver a) t
                  (contributed scoring fd kind config results g (Agg.solver a)).
Proof.
  intros Hd. rewrite In_aggregated. split.
  - intros [Hne E].
    destruct (in_dec Z.eq_dec g (map fst totals)) as [Hin | Hn];
      [| now rewrite bucket_absent in Hne].
    apply in_map_iff in Hin. destruct Hin as ([g' t] & Eg & Hin).
    simpl in Eg. subst g'. exists t. split; auto.
    rewrite (bucket_present scoring fd totals kind config results g _ t Hd Hin) in *.
    assert (Hc : contributed scoring fd kind config results g (Agg.solver a) <> []).
    { intros Hc. rewrite Hc in Hne. now apply Hne. }
    split; auto.
    rewrite agg_bucket_present in E by assumption. congruence.
  - intros (t & Hin & Hne & E).
    rewrite (bucket_present scoring fd totals kind config results g _ t Hd Hin).
    split.
    + destruct (contributed scoring fd kind config results g (Agg.solver a));
        [congruence | discriminate].
    + rewrite agg_bucket_present by assumption. congruence.
Qed.

Lemma total_of_spec fd selection g t :
  In (g, t) (len_by_division fd (selected_rows selection)) ->
  t = total_of fd selection g /\ 0 < t.
Proof.
  intros H. apply In_len_by_division in H. destruct H as [H ->].
  split; [reflexivity |].
  apply in_map_iff in H. destruct H as (x & E & H).
  unfold Frame.len.
  assert (Hx : In x (filter (fun x => Selection.col fd x =? g) (selected_rows selection))).
  { apply filter_In. split; auto. now apply Z.eqb_eq. }
  destruct (filter _ (selected_rows selection)); [destruct Hx | simpl; lia].
Qed.

Lemma total_of_pos fd selection g :
  0 < total_of fd selection g ->
  In (g, total_of fd selection g) (len_by_division fd (selected_rows selection)).
Proof.
  intros H. apply In_len_by_division. split; [| reflexivity].
  unfold total_of, Frame.len in H.
  destruct (filter _ (selected_rows selection)) as [| x xs] eqn:E; [simpl in H; lia |].
  assert (Hx : In x (filter (fun x => Selection.col fd x =? g) (selected_rows selection)))
    by (rewrite E; now left).
  apply filter_In in Hx. destruct Hx as [Hx Hg]. apply Z.eqb_eq in Hg.
  rewrite <- Hg. now apply in_map.
Qed.

(** Every entry of a ranked list, with the totals of the selection. *)
Lemma ranked_entry fd selection kind config results g l a :
  In (g, l) (info_for_podium_step scoring fd
               (len_by_division fd (selected_rows selection)) kind config results) ->
  In a l ->
  contributed scoring fd kind config results g (Agg.solver a) <> [] /\
  a = aggregate_of scoring (Agg.solver a) (total_of fd selection g)
        (contributed scoring fd kind config results g (Agg.solver a)).
Proof.
  intros Hl Ha. apply (In_ranked scoring _ _ _ _ _ _ _ _ Hl) in Ha.
  apply aggregated_entry in Ha; [| apply NoDup_len_by_division].
  destruct Ha as (t & Ht & Hne & E).
  apply total_of_spec in Ht. destruct Ht as [-> _]. auto.
Qed.

Lemma count_cons {A : Type} (p : A -> bool) x l :
  Frame.count p (x :: l) = Z.b2z (p x) + Frame.count p l.
Proof.
  unfold Frame.count. cbn [filter]. destruct (p x); cbn [List.length Z.b2z];
    rewrite ?Nat2Z.inj_succ; lia.
Qed.

Lemma count_outcomes rows :
  (forall r, In r rows -> one_outcome scoring r) ->
  Frame.count (known_answer scoring) rows + Frame.count (unknown_answer scoring) rows
  + Frame.count (timeout_answer scoring) rows + Frame.count (memout_answer scoring) rows
  = Frame.len rows.
Proof.
  induction rows as [| r rows IH]; intros H; [reflexivity |].
  rewrite !count_cons. unfold Frame.len in *. cbn [List.length].
  rewrite Nat2Z.inj_succ.
  specialize (IH (fun r' Hr => H r' (or_intror Hr))).
  pose proof (H r (or_introl eq_refl)) as H1. unfold one_outcome in H1. lia.
Qed.

(** C3, amended: when the classifiers give every row of the variant
    exactly one of the outcomes solved, unknown, timeout and memout, the
    counts of an entry of the ranked list of a group add up, with abstained,
    to the number of selected benchmarks of the group, provided the solver
    has no more rows than the group has selected benchmarks.  With more
    rows, the UInt32 difference wraps and the counts add up to the total
    plus 2^32. *)
Theorem counts_add_up_to_total fd selection kind config results g l a :
  (forall r, In r (filter_for scoring kind config results) -> one_outcome scoring r) ->
  In (g, l) (info_for_podium_step scoring fd
               (len_by_division fd (selected_rows selection)) kind config results) ->
  In a l ->
  (Frame.len (contributed scoring fd kind config results g (Agg.solver a))
   <= total_of fd selection g < 2 ^ 32 ->
   Agg.solved a + Agg.unsolved a + Agg.timeout a + Agg.memout a + Agg.abstained a
   = total_of fd selection g) /\
  (total_of fd selection g
   < Frame.len (contributed scoring fd kind config results g (Agg.solver a))
   <= total_of fd selection g + 2 ^ 32 ->
   Agg.solved a + Agg.unsolved a + Agg.timeout a + Agg.memout a + Agg.abstained a
   = total_of fd selection g + 2 ^ 32).
Proof.
  intros Hp Hl Ha. destruct (ranked_entry _ _ _ _ _ _ _ _ Hl Ha) as [_ E].
  set (rows := contributed scoring fd kind config results g (Agg.solver a)) in *.
  assert (Hc : Agg.solved a + Agg.unsolved a + Agg.timeout a + Agg.memout a
               = Frame.len rows).
  { rewrite E. cbn. apply count_outcomes.
    intros r Hr. apply Hp. unfold rows, contributed in Hr. apply filter_In in Hr. tauto. }
  assert (Ea : Agg.abstained a = wrap_u32 (total_of fd selection g - Frame.len rows))
    by (rewrite E; reflexivity).
  assert (Hn : 0 <= Frame.len rows) by (unfold Frame.len; lia).
  split; intros H; rewrite Ea.
  - rewrite wrap_u32_small by lia. lia.
  - rewrite wrap_u32_neg by lia. lia.
Qed.

(** C4, amended: the abstained count of an entry is the UInt32 difference of
    the number of selected benchmarks of its group and the number of rows
    its solver contributes to the group (the single-query rows that the
    variant filter keeps): total minus rows when the solver has no more rows
    than the group has selected benchmarks, and total minus rows plus 2^32
    when it has more. *)
Theorem abstained_is_total_minus_rows fd selection kind config
    (results : list (Results.tracked F)) g l a :
  In (g, l) (info_for_podium_step scoring fd
               (len_by_division fd (selected_rows selection)) kind config
               (single_query defs results)) ->
  In a l ->
  Agg.abstained a
  = wrap_u32 (total_of fd selection g
              - Frame.len (contributed scoring fd kind config (single_query defs results)
                             g (Agg.solver a))) /\
  (Frame.len (contributed scoring fd kind config (single_query defs results)
                g (Agg.solver a))
   <= total_of fd selection g < 2 ^ 32 ->
   Agg.abstained a
   = total_of fd selection g
     - Frame.len (contributed scoring fd kind config (single_query defs results)
                    g (Agg.solver a))) /\
  (total_of fd selection g
   < Frame.len (contributed scoring fd kind config (single_query defs results)
                  g (Agg.solver a))
   <= total_of fd selection g + 2 ^ 32 ->
   Agg.abstained a
   = total_of fd selection g
     - Frame.len (contributed scoring fd kind config (single_query defs results)
                    g (Agg.solver a))
     + 2 ^ 32).
Proof.
  intros Hl Ha. destruct (ranked_entry _ _ _ _ _ _ _ _ Hl Ha) as [_ E].
  set (rows := contributed scoring fd kind config (single_query defs results)
                 g (Agg.solver a)) in *.
  assert (Ea : Agg.abstained a = wrap_u32 (total_of fd selection g - Frame.len rows))
    by (rewrite E; reflexivity).
  assert (Hn : 0 <= Frame.len rows) by (unfold Frame.len; lia).
  split; [exact Ea |]. split; intros H; rewrite Ea.
  - apply wrap_u32_small. lia.
  - apply wrap_u32_neg. lia.
Qed.

End Entries.

(** ** The joined frame *)

Section Joins.
Import Frame FrameFacts.

Context {F : FloatOrd}.
Variable defs : Defs.
Variable scoring : Scoring F.

Section Fold.

Variables (fd : bool) (totals : list (Z * Z)) (config : Config)
          (results : list (Results.row F)).

Let joins := add_kinds scoring fd totals config results.

Lemma add_kinds_group ks d : Joined.group (joins ks d) = Joined.group d.
Proof.
  revert d. induction ks as [| k ks IH]; intros d; simpl; auto.
  unfold joins, add_kinds in *. simpl. now rewrite IH.
Qed.

Lemma add_kinds_total ks d : Joined.total (joins ks d) = Joined.total d.
Proof.
  revert d. induction ks as [| k ks IH]; intros d; simpl; auto.
  unfold joins, add_kinds in *. simpl. now rewrite IH.
Qed.

Lemma add_kinds_logics ks d : Joined.logics (joins ks d) = Joined.logics d.
Proof.
  revert d. induction ks as [| k ks IH]; intros d; simpl; auto.
  unfold joins, add_kinds in *. simpl. now rewrite IH.
Qed.

Lemma add_kinds_ranked ks d k :
  Joined.ranked (joins ks d) k =
  if in_dec Kind.eq_dec k ks
  then lookup Z.eq_dec (Joined.group d)
         (info_for_podium_step scoring fd totals k config results)
  else Joined.ranked d k.
Proof.
  revert d. induction ks as [| k0 ks IH]; intros d; [reflexivity |].
  unfold joins, add_kinds in *. cbn [fold_left]. rewrite IH. clear IH.
  destruct (in_dec Kind.eq_dec k ks) as [i | n];
    destruct (in_dec Kind.eq_dec k (k0 :: ks)) as [i' | n']; simpl in *; auto.
  - exfalso. tauto.
  - destruct (Kind.eq_dec k k0) as [-> | ne]; auto. exfalso. destruct i'; congruence.
  - destruct (Kind.eq_dec k k0) as [-> | ne]; auto. exfalso. tauto.
Qed.

Lemma fold_joins ks (x : list (Joined.t F)) :
  NoDup (map Joined.group x) ->
  fold_left
    (fun acc kind =>
       x <- acc ;;
       left_join Z.eq_dec Joined.group (Joined.set_ranked kind) x
         (info_for_podium_step scoring fd totals kind config results))
    ks (Ok x)
  = Ok (map (joins ks) x).
Proof.
  revert x. induction ks as [| k ks IH]; intros x Hd; cbn [fold_left].
  - unfold joins, add_kinds. simpl. now rewrite map_id.
  - cbn [bind]. rewrite left_join_NoDup; auto using NoDup_info_keys.
    rewrite IH.
    + rewrite map_map. reflexivity.
    + rewrite map_map. simpl. exact Hd.
Qed.

End Fold.

Lemma In_all_kinds k : In k Kind.all.
Proof. destruct k; simpl; auto 6. Qed.

Lemma lf_logics_keys selection g :
  In g (map fst (lf_logics selection)) <-> In g (map Selection.division selection).
Proof.
  unfold lf_logics. rewrite map_map. cbn [fst].
  change (map (fun x => fst x) ?l) with (map fst l).
  rewrite group_by_keys, In_unique, map_map. cbn [fst].
  rewrite !in_map_iff. split.
  - intros ([[d lg] b] & E & H). simpl in E. subst d.
    apply In_group_by in H. destruct H as [H _].
    apply in_map_iff in H. destruct H as (s & E & H). inversion E; subst.
    eauto.
  - intros (s & E & H).
    eexists ((Selection.division s, Selection.logic s), _). split; [exact E |].
    apply In_group_by. split; [| reflexivity].
    apply in_map_iff. eauto.
Qed.

Lemma NoDup_lf_logics selection : NoDup (map fst (lf_logics selection)).
Proof.
  unfold lf_logics. rewrite map_map. cbn [fst].
  apply (NoDup_group_by Z.eq_dec).
Qed.

(** The reduction of joins never fails; the joined frame has one row per
    group of the totals, in their order, and each column is the look-up of
    the group in the joined frame. *)
Lemma joined_spec config selection results fd :
  exists df,
    joined scoring config selection results fd = Ok df /\
    map (fun d => (Joined.group d, Joined.total d)) df = len_by_division fd selection /\
    forall d, In d df ->
      Joined.logics d =
        (if fd then lookup Z.eq_dec (Joined.group d) (lf_logics selection) else None) /\
      forall k, Joined.ranked d k =
                lookup Z.eq_dec (Joined.group d)
                  (info_for_podium_step scoring fd (len_by_division fd selection)
                     k config results).
Proof.
  unfold joined.
  set (totals := len_by_division fd selection).
  set (r0 := map _ totals).
  assert (Hg : map Joined.group r0 = map fst totals).
  { unfold r0. rewrite map_map. reflexivity. }
  assert (Hd : NoDup (map Joined.group r0)).
  { rewrite Hg. apply NoDup_len_by_division. }
  set (r1 := if fd then map (fun a => Joined.set_logics a
                              (lookup Z.eq_dec (Joined.group a) (lf_logics selection))) r0
             else r0).
  assert (E1 : (if fd
                then left_join Z.eq_dec Joined.group Joined.set_logics r0 (lf_logics selection)
                else Ok r0) = Ok r1).
  { unfold r1. destruct fd; auto.
    apply left_join_NoDup; auto using NoDup_lf_logics. }
  rewrite E1.
  assert (Hg1 : map Joined.group r1 = map Joined.group r0).
  { unfold r1. destruct fd; auto. rewrite map_map. reflexivity. }
  rewrite fold_joins by (now rewrite Hg1).
  eexists. split; [reflexivity |]. split.
  - rewrite map_map.
    erewrite map_ext;
      [| intros d; rewrite add_kinds_group, add_kinds_total; reflexivity].
    unfold r1, r0. destruct fd; rewrite !map_map; simpl;
      (erewrite map_ext; [apply map_id | intros []; reflexivity]).
  - intros d Hin. apply in_map_iff in Hin. destruct Hin as (d1 & <- & H1).
    rewrite add_kinds_logics, add_kinds_group. split.
    + unfold r1, r0 in H1. destruct fd.
      * rewrite map_map in H1. apply in_map_iff in H1.
        destruct H1 as (t & <- & _). reflexivity.
      * apply in_map_iff in H1. destruct H1 as (t & <- & _). reflexivity.
    + intros k. rewrite add_kinds_ranked.
      destruct (in_dec Kind.eq_dec k Kind.all) as [_ | n]; [reflexivity |].
      exfalso. apply n, In_all_kinds.
Qed.

End Joins.

(** ** Facts about dictionaries *)

Module PyDictFacts.
Import PyDict.

Section Facts.

Context {V : Type}.

Lemma set_fresh k (v : V) d : ~ In k (map fst d) -> set k v d = d ++ [(k, v)].
Proof.
  induction d as [| [k' v'] d IH]; simpl; auto.
  intros H. destruct (string_dec k k'); [intuition congruence |].
  rewrite IH; tauto.
Qed.

Lemma In_set k (v : V) d kv : In kv (set k v d) -> kv = (k, v) \/ In kv d.
Proof.
  induction d as [| [k' v'] d IH]; simpl.
  - intros [<- | []]. auto.
  - destruct (string_dec k k'); simpl; intros [<- | H]; auto.
    destruct (IH H); auto.
Qed.

Lemma set_keys k (v : V) d k' :
  In k' (map fst (set k v d)) <-> k' = k \/ In k' (map fst d).
Proof.
  induction d as [| [k0 v0] d IH]; simpl.
  - intuition congruence.
  - destruct (string_dec k k0) as [-> | n]; simpl; [intuition congruence |].
    rewrite IH. intuition congruence.
Qed.

Lemma NoDup_set k (v : V) d : NoDup (map fst d) -> NoDup (map fst (set k v d)).
Proof.
  induction d as [| [k0 v0] d IH]; simpl; intros H.
  - repeat constructor. auto.
  - inversion H; subst. destruct (string_dec k k0) as [-> | n]; simpl.
    + now constructor.
    + constructor; auto. rewrite set_keys. intros [E | I]; congruence.
Qed.

Lemma fold_set_In (items acc : list (string * V)) kv :
  In kv (fold_left (fun d kv => set (fst kv) (snd kv) d) items acc) ->
  In kv acc \/ In kv items.
Proof.
  revert acc. induction items as [| [k v] items IH]; intros acc; simpl; auto.
  intros H. destruct (IH _ H) as [H1 | H1]; auto.
  destruct (In_set _ _ _ _ H1); auto.
Qed.

Lemma In_of_items (items : list (string * V)) kv :
  In kv (of_items items) -> In kv items.
Proof.
  intros H. destruct (fold_set_In _ _ _ H) as [[] | H1]. exact H1.
Qed.

Lemma fold_set_NoDup (items acc : list (string * V)) :
  NoDup (map fst acc) ->
  NoDup (map fst (fold_left (fun d kv => set (fst kv) (snd kv) d) items acc)).
Proof.
  revert acc. induction items as [| [k v] items IH]; intros acc H; simpl; auto.
  apply IH. now apply NoDup_set.
Qed.

Lemma NoDup_of_items (items : list (string * V)) : NoDup (map fst (of_items items)).
Proof. apply fold_set_NoDup. constructor. Qed.

Lemma fold_set_fresh (items acc : list (string * V)) :
  NoDup (map fst (acc ++ items)) ->
  fold_left (fun d kv => set (fst kv) (snd kv) d) items acc = acc ++ items.
Proof.
  revert acc. induction items as [| [k v] items IH]; intros acc H; simpl.
  - now rewrite app_nil_r.
  - rewrite set_fresh.
    + rewrite IH; rewrite <- app_assoc; auto.
    + rewrite map_app in H. apply NoDup_remove_2 in H.
      intros Hk. apply H. apply in_or_app. now left.
Qed.

(** [dict(items)] keeps a list of items with distinct keys as it is. *)
Lemma of_items_NoDup (items : list (string * V)) :
  NoDup (map fst items) -> of_items items = items.
Proof. intros H. unfold of_items. now rewrite fold_set_fresh. Qed.


Lemma get_None k (d : list (string * V)) : ~ In k (map fst d) -> get k d = None.
Proof.
  induction d as [| [k' v'] d IH]; simpl; auto.
  intros H. destruct (string_dec k k'); [intuition congruence | apply IH; tauto].
Qed.

Lemma get_Some_In k (v : V) d : get k d = Some v -> In (k, v) d.
Proof.
  induction d as [| [k' v'] d IH]; simpl; [discriminate |].
  destruct (string_dec k k') as [-> | n]; [intros [= ->]; auto | auto].
Qed.

Lemma get_in_keys k (d : list (string * V)) :
  In k (map fst d) -> exists v, get k d = Some v.
Proof.
  induction d as [| [k' v'] d IH]; simpl; [tauto |].
  destruct (string_dec k k') as [-> | n]; [eauto |].
  intros [E | H]; [congruence | auto].
Qed.

Lemma fold_set_keys (items acc : list (string * V)) k :
  In k (map fst (fold_left (fun d kv => set (fst kv) (snd kv) d) items acc)) <->
  In k (map fst acc) \/ In k (map fst items).
Proof.
  revert acc. induction items as [| [k' v] items IH]; intros acc; simpl; [tauto |].
  rewrite IH, set_keys. intuition congruence.
Qed.

Lemma of_items_keys (items : list (string * V)) k :
  In k (map fst (of_items items)) <-> In k (map fst items).
Proof. unfold of_items. rewrite fold_set_keys. simpl. tauto. Qed.

(** A key that every item gives the same value is looked up to it. *)
Lemma get_of_items_unique k (v : V) items :
  In (k, v) items -> (forall v', In (k, v') items -> v' = v) ->
  get k (of_items items) = Some v.
Proof.
  intros Hin Hu.
  destruct (get_in_keys k (of_items items)) as (v' & E).
  - apply of_items_keys. change k with (fst (k, v)). now apply in_map.
  - rewrite E. f_equal. apply Hu, In_of_items, get_Some_In, E.
Qed.

End Facts.

End PyDictFacts.

(** ** Assembling the records *)

Section Assembly.
Import Frame FrameFacts PyDictFacts.

Context {F : FloatOrd}.
Variable defs : Defs.
Variable scoring : Scoring F.

Lemma mapM_Forall2 {A B : Type} (f : A -> result B) l :
  (forall a, In a l -> exists b, f a = Ok b) ->
  exists bs, mapM f l = Ok bs /\ Forall2 (fun a b => f a = Ok b) l bs.
Proof.
  induction l as [| a l IH]; intros H; simpl.
  - exists []. split; auto.
  - destruct (H a (or_introl eq_refl)) as (b & Eb).
    destruct IH as (bs & Ebs & Hbs); [intros; apply H; now right |].
    exists (b :: bs). rewrite Eb, Ebs. split; auto.
Qed.

Lemma mapM_inv {A B : Type} (f : A -> result B) l bs :
  mapM f l = Ok bs -> Forall2 (fun a b => f a = Ok b) l bs.
Proof.
  revert bs. induction l as [| a l IH]; intros bs; simpl.
  - intros [= <-]. constructor.
  - destruct (f a) as [b |] eqn:Eb; simpl; [| discriminate].
    destruct (mapM f l) as [bs' |]; simpl; [| discriminate].
    intros [= <-]. constructor; auto.
Qed.

Lemma Forall2_In_r {A B : Type} (R : A -> B -> Prop) l bs b :
  Forall2 R l bs -> In b bs -> exists a, In a l /\ R a b.
Proof.
  induction 1 as [| a b' l bs HR HF IH]; simpl; [tauto |].
  intros [<- | H]; [eauto |]. destruct (IH H) as (a' & ? & ?). eauto.
Qed.

Lemma Forall2_In_l {A B : Type} (R : A -> B -> Prop) l bs a :
  Forall2 R l bs -> In a l -> exists b, In b bs /\ R a b.
Proof.
  induction 1 as [| a' b l bs HR HF IH]; simpl; [tauto |].
  intros [<- | H]; [eauto |]. destruct (IH H) as (b' & ? & ?). eauto.
Qed.

Lemma get_winner_rule (l : option (list (Agg.t F))) w :
  get_winner l = Ok w -> w = winner_rule (podium_steps l).
Proof.
  destruct l as [[| s l] |]; simpl; try congruence.
  destruct (Agg.correctly_solved_score s =? 0); congruence.
Qed.

Lemma get_winner_total (l : option (list (Agg.t F))) :
  l <> Some [] -> exists w, get_winner l = Ok w.
Proof.
  destruct l as [[| s l] |]; simpl; try congruence; eauto.
  destruct (Agg.correctly_solved_score s =? 0); eauto.
Qed.

Lemma make_podium_inv config (d : Joined.t F) fd p :
  make_podium defs config d fd = Ok p ->
  PodiumDivision.division p = name_of_int defs fd (Joined.group d) /\
  PodiumDivision.n_benchmarks p = Joined.total d /\
  PodiumDivision.logics p = logics_of defs fd d /\
  forall k, ranked_of k p = podium_steps (Joined.ranked d k) /\
            get_winner (Joined.ranked d k) = Ok (winner_of k p).
Proof.
  unfold make_podium, logics_of, name_of_int.
  destruct fd; [destruct (Joined.logics d); [| discriminate] |]; cbn [bind];
    (destruct (get_winner (Joined.ranked d Kind.seq)) eqn:E1; [| discriminate]);
    (destruct (get_winner (Joined.ranked d Kind.par)) eqn:E2; [| discriminate]);
    (destruct (get_winner (Joined.ranked d Kind.sat)) eqn:E3; [| discriminate]);
    (destruct (get_winner (Joined.ranked d Kind.unsat)) eqn:E4; [| discriminate]);
    (destruct (get_winner (Joined.ranked d Kind.twentyfour)) eqn:E5; [| discriminate]);
    cbn [bind]; intros [= <-]; cbn; repeat split; destruct k; cbn; auto.
Qed.

Lemma make_podium_total config (d : Joined.t F) fd :
  (fd = true -> Joined.logics d <> None) ->
  (forall k, Joined.ranked d k <> Some []) ->
  exists p, make_podium defs config d fd = Ok p.
Proof.
  intros Hl Hr. unfold make_podium.
  destruct (get_winner_total _ (Hr Kind.seq)) as (w1 & E1).
  destruct (get_winner_total _ (Hr Kind.par)) as (w2 & E2).
  destruct (get_winner_total _ (Hr Kind.sat)) as (w3 & E3).
  destruct (get_winner_total _ (Hr Kind.unsat)) as (w4 & E4).
  destruct (get_winner_total _ (Hr Kind.twentyfour)) as (w5 & E5).
  rewrite E1, E2, E3, E4, E5.
  destruct fd; [destruct (Joined.logics d); [| now destruct Hl] |];
    cbn [bind]; eauto.
Qed.

Lemma info_nonempty fd totals kind config results g l :
  In (g, l) (info_for_podium_step scoring fd totals kind config results) -> l <> [].
Proof.
  intros H. apply In_info in H. destruct H as [Hg ->].
  apply in_map_iff in Hg. destruct Hg as (x & E & Hx).
  assert (Hi : In (snd x) (map snd (filter (fun x => keyb Z.eq_dec (fst x) g)
                                      (sorted_frame scoring fd totals kind config results)))).
  { apply in_map, filter_In. split; auto. rewrite E. apply keyb_refl. }
  intros En. rewrite En in Hi. exact Hi.
Qed.

(** [sq_generate_datas] never fails: it returns the dictionary of the
    records assembled from the rows of the joined frame. *)
Lemma sq_generate_datas_spec config selection results fd :
  exists df items,
    joined scoring config (selected_rows selection) (single_query defs results) fd = Ok df /\
    Forall2 (fun d it => fst it = name_of_int defs fd (Joined.group d) /\
                         make_podium defs config d fd = Ok (snd it)) df items /\
    sq_generate_datas defs scoring config selection results fd = Ok (PyDict.of_items items).
Proof.
  destruct (joined_spec scoring config (selected_rows selection)
              (single_query defs results) fd) as (df & Ej & Hk & Hdf).
  unfold sq_generate_datas. rewrite Ej. cbn [bind].
  destruct (mapM_Forall2
              (fun d => p <- make_podium defs config d fd ;;
                        Ok (name_of_int defs fd (Joined.group d), p)) df)
    as (items & Em & Hf).
  - intros d Hd. destruct (Hdf d Hd) as [Hl Hr].
    destruct (make_podium_total config d fd) as (p & Ep).
    + intros ->. rewrite Hl. intros En. apply lookup_None in En. apply En.
      apply lf_logics_keys.
      assert (Hg : In (Joined.group d) (map fst (len_by_division true (selected_rows selection)))).
      { rewrite <- Hk, map_map. simpl. now apply in_map. }
      apply in_map_iff in Hg. destruct Hg as ([g t] & Eg & Hg). simpl in Eg. subst g.
      apply In_len_by_division in Hg. exact (proj1 Hg).
    + intros k. rewrite Hr. intros E. apply lookup_Some_In in E.
      now apply info_nonempty in E.
    + rewrite Ep. cbn [bind]. eauto.
  - exists df, items. rewrite Em. cbn [bind]. repeat split; auto.
    clear - Hf. induction Hf as [| d it df items H Hf IH]; constructor; auto.
    destruct (make_podium defs config d fd); cbn [bind] in H; [| discriminate].
    inversion H; subst. auto.
Qed.

(** Every record of the output dictionary is assembled from a row of the
    joined frame. *)
Lemma sq_generate_datas_In config selection results fd out nm p :
  sq_generate_datas defs scoring config selection results fd = Ok out ->
  In (nm, p) out ->
  exists d,
    nm = name_of_int defs fd (Joined.group d) /\
    make_podium defs config d fd = Ok p /\
    In (Joined.group d, Joined.total d) (len_by_division fd (selected_rows selection)) /\
    (forall k, Joined.ranked d k =
               lookup Z.eq_dec (Joined.group d)
                 (info_for_podium_step scoring fd
                    (len_by_division fd (selected_rows selection)) k config
                    (single_query defs results))) /\
    Joined.logics d =
      (if fd then lookup Z.eq_dec (Joined.group d) (lf_logics (selected_rows selection))
       else None).
Proof.
  intros Eo Hin.
  destruct (joined_spec scoring config (selected_rows selection)
              (single_query defs results) fd) as (df & Ej & Hk & Hdf).
  destruct (sq_generate_datas_spec config selection results fd)
    as (df' & items & Ej' & Hf & Es).
  rewrite Ej in Ej'. inversion Ej'; subst df'. rewrite Eo in Es. inversion Es; subst out.
  apply In_of_items in Hin.
  destruct (Forall2_In_r _ _ _ _ Hf Hin) as (d & Hd & En & Ep). simpl in En, Ep.
  exists d. repeat split; auto.
  - rewrite <- Hk. apply in_map_iff. eauto.
  - apply (Hdf d Hd).
  - apply (Hdf d Hd).
Qed.

End Assembly.

(** ** Properties of the assembled records *)

Section Records.
Import Frame FrameFacts PyDictFacts.

Context {F : FloatOrd}.
Variable defs : Defs.
Variable scoring : Scoring F.

(** C2, amended: in every record of the output and for every variant, the
    winner is "-" when the ranked list is empty or the correctness score of
    its first entry is zero, and the name of the first entry otherwise; so
    the winner is "-" exactly when the list is empty, the first correctness
    score is zero, or the first entry is a solver that is itself named "-". *)
Theorem winner_is_first_unless_zero config selection results fd out nm p k :
  sq_generate_datas defs scoring config selection results fd = Ok out ->
  In (nm, p) out ->
  (ranked_of k p = [] -> winner_of k p = "-"%string) /\
  (forall s t, ranked_of k p = s :: t -> PodiumStep.correctScore s = 0 ->
               winner_of k p = "-"%string) /\
  (forall s t, ranked_of k p = s :: t -> PodiumStep.correctScore s <> 0 ->
               winner_of k p = PodiumStep.name s) /\
  (winner_of k p = "-"%string <->
   ranked_of k p = [] \/
   exists s t, ranked_of k p = s :: t /\
               (PodiumStep.correctScore s = 0 \/ PodiumStep.name s = "-"%string)).
Proof.
  intros Eo Hin.
  destruct (sq_generate_datas_In defs scoring _ _ _ _ _ _ _ Eo Hin) as (d & _ & Ep & _).
  destruct (make_podium_inv defs _ _ _ _ Ep) as (_ & _ & _ & Hk).
  destruct (Hk k) as [Hr Hw]. apply get_winner_rule in Hw. rewrite <- Hr in Hw.
  rewrite Hw. unfold winner_rule.
  destruct (ranked_of k p) as [| s t].
  - split; [reflexivity |]. split; [discriminate |]. split; [discriminate |].
    split; auto.
  - split; [discriminate |].
    split; [intros s' t' [= <- <-] E; now rewrite E |].
    split; [intros s' t' [= <- <-] E; apply Z.eqb_neq in E; now rewrite E |].
    split.
    + intros E. right. exists s, t. split; [reflexivity |].
      destruct (Z.eqb_spec (PodiumStep.correctScore s) 0); auto.
    + intros [E | (s' & t' & E & H)]; [discriminate |].
      inversion E; subst s' t'.
      destruct H as [H | H]; [now rewrite H |].
      destruct (PodiumStep.correctScore s =? 0); auto.
Qed.


End Records.

Section Totality.
Import Frame FrameFacts PyDictFacts.

Context {F : FloatOrd}.
Variable defs : Defs.
Variable scoring : Scoring F.

(** The row of a group in the joined frame, and its record. *)
Lemma record_of_group config selection results fd g :
  In g (map fst (len_by_division fd (selected_rows selection))) ->
  exists df out d p,
    joined scoring config (selected_rows selection) (single_query defs results) fd = Ok df /\
    sq_generate_datas defs scoring config selection results fd = Ok out /\
    In d df /\ Joined.group d = g /\
    make_podium defs config d fd = Ok p /\
    (forall k, Joined.ranked d k =
               lookup Z.eq_dec g
                 (info_for_podium_step scoring fd
                    (len_by_division fd (selected_rows selection)) k config
                    (single_query defs results))) /\
    ((forall g', In g' (map fst (len_by_division fd (selected_rows selection))) ->
                 name_of_int defs fd g' = name_of_int defs fd g -> g' = g) ->
     PyDict.get (name_of_int defs fd g) out = Some p).
Proof.
  intros Hg.
  destruct (joined_spec scoring config (selected_rows selection)
              (single_query defs results) fd) as (df & Ej & Hk & Hdf).
  destruct (sq_generate_datas_spec defs scoring config selection results fd)
    as (df' & items & Ej' & Hf & Es).
  rewrite Ej in Ej'. inversion Ej'; subst df'.
  assert (Hd : exists d, In d df /\ Joined.group d = g).
  { rewrite <- Hk, map_map in Hg. simpl in Hg.
    apply in_map_iff in Hg. destruct Hg as (d & E & Hd). eauto. }
  destruct Hd as (d & Hd & Eg).
  destruct (Forall2_In_l _ _ _ _ Hf Hd) as ([nm p] & Hit & En & Ep). simpl in En, Ep.
  exists df, (PyDict.of_items items), d, p. repeat split; auto.
  - intros k. rewrite <- Eg. apply (Hdf d Hd).
  - intros Hinj. apply get_of_items_unique.
    + rewrite <- Eg, <- En. exact Hit.
    + intros p' Hp'.
      destruct (Forall2_In_r _ _ _ _ Hf Hp') as (d' & Hd' & En' & Ep').
      simpl in En', Ep'.
      assert (Eg' : Joined.group d' = g).
      { apply Hinj; [| now rewrite En'].
        rewrite <- Hk, map_map. simpl. now apply in_map. }
      assert (Ed : d' = d).
      { assert (Hn : NoDup (map Joined.group df)).
        { replace (map Joined.group df)
            with (map fst (len_by_division fd (selected_rows selection))).
          - apply NoDup_len_by_division.
          - rewrite <- Hk, map_map. reflexivity. }
        clear - Hn Hd Hd' Eg Eg'. induction df as [| x df IH]; [destruct Hd |].
        simpl in Hn. inversion Hn; subst.
        destruct Hd as [-> | Hd], Hd' as [-> | Hd']; auto.
        - exfalso. apply H1. rewrite <- Eg'. now apply in_map.
        - exfalso. apply H1. rewrite Eg'. now apply in_map. }
      subst d'. congruence.
Qed.

(** C6: the pipeline returns its dictionary for every input.  A group of
    the totals has a row in the joined frame and a record assembled from it;
    for a variant whose aggregation has no row of the group, the column is
    null, the list of the record is empty and the winner is "-".  The record
    is the one the dictionary holds under the name of the group, when no
    other group of the totals has that name. *)
Theorem absent_variant_gives_empty_list config selection results fd :
  exists df out,
    joined scoring config (selected_rows selection) (single_query defs results) fd = Ok df /\
    sq_generate_datas defs scoring config selection results fd = Ok out /\
    forall g,
      In g (map fst (len_by_division fd (selected_rows selection))) ->
      exists d p,
        In d df /\ Joined.group d = g /\ make_podium defs config d fd = Ok p /\
        (forall k,
           ~ In g (map fst (info_for_podium_step scoring fd
                              (len_by_division fd (selected_rows selection)) k config
                              (single_query defs results))) ->
           Joined.ranked d k = None /\
           ranked_of k p = [] /\ winner_of k p = "-"%string) /\
        ((forall g', In g' (map fst (len_by_division fd (selected_rows selection))) ->
                     name_of_int defs fd g' = name_of_int defs fd g -> g' = g) ->
         PyDict.get (name_of_int defs fd g) out = Some p).
Proof.
  destruct (joined_spec scoring config (selected_rows selection)
              (single_query defs results) fd) as (df & Ej & _).
  destruct (sq_generate_datas_spec defs scoring config selection results fd)
    as (df' & items & _ & _ & Es).
  exists df, (PyDict.of_items items). repeat split; auto.
  intros g Hg.
  destruct (record_of_group config selection results fd g Hg)
    as (df1 & out1 & d & p & Ej1 & Es1 & Hd & Eg & Ep & Hr & Hget).
  rewrite Ej in Ej1. inversion Ej1; subst df1.
  rewrite Es in Es1. inversion Es1; subst out1.
  exists d, p.
  split; [exact Hd |]. split; [exact Eg |]. split; [exact Ep |].
  split; [| exact Hget].
  intros k Hn. apply (lookup_None Z.eq_dec) in Hn.
  destruct (make_podium_inv defs _ _ _ _ Ep) as (_ & _ & _ & Hk).
  destruct (Hk k) as [Hl Hw]. rewrite Hr, Hn in Hl, Hw. simpl in Hl, Hw.
  rewrite Hr, Hn. split; [reflexivity |]. split; congruence.
Qed.

(** C5, amended: no check is made on the abstained count.  When a solver
    contributes more rows to a group than the group has selected benchmarks
    (and the group has one at least), nothing fails: the joined frame and
    the output are produced, and the ranked list of the group holds the
    entry of the solver, which the record of the group emits.  Its abstained
    count is the UInt32 difference of the total and the rows: it is not
    negative, and it is total - rows + 2^32 (as long as the rows do not
    exceed the total by more than 2^32). *)
Theorem rows_above_total_still_aggregated config selection results fd kind g s :
  0 < total_of fd selection g ->
  total_of fd selection g
  < Frame.len (contributed scoring fd kind config (single_query defs results) g s) ->
  exists df out d p l a,
    joined scoring config (selected_rows selection) (single_query defs results) fd = Ok df /\
    sq_generate_datas defs scoring config selection results fd = Ok out /\
    In d df /\ Joined.group d = g /\ make_podium defs config d fd = Ok p /\
    Joined.ranked d kind = Some l /\ In a l /\ Agg.solver a = s /\
    Agg.abstained a
    = wrap_u32
        (total_of fd selection g
         - Frame.len (contributed scoring fd kind config (single_query defs results) g s)) /\
    0 <= Agg.abstained a < 2 ^ 32 /\
    (Frame.len (contributed scoring fd kind config (single_query defs results) g s)
     <= total_of fd selection g + 2 ^ 32 ->
     Agg.abstained a
     = total_of fd selection g
       - Frame.len (contributed scoring fd kind config (single_query defs results) g s)
       + 2 ^ 32) /\
    In (podium_step a) (ranked_of kind p).
Proof.
  intros Hpos Hlt.
  set (rows := contributed scoring fd kind config (single_query defs results) g s) in *.
  set (totals := len_by_division fd (selected_rows selection)).
  pose proof (total_of_pos fd selection g Hpos) as Ht. fold totals in Ht.
  assert (Hg : In g (map fst totals)).
  { change g with (fst (g, total_of fd selection g)). now apply in_map. }
  destruct (record_of_group config selection results fd g Hg)
    as (df & out & d & p & Ej & Es & Hd & Eg & Ep & Hr & _).
  set (a := aggregate_of scoring s (total_of fd selection g) rows).
  assert (Ha : In (g, a) (aggregated scoring fd totals kind config (single_query defs results))).
  { apply aggregated_entry; [apply NoDup_len_by_division |].
    exists (total_of fd selection g). simpl. fold rows.
    repeat split; auto.
    intros E. rewrite E in Hlt. unfold Frame.len in Hlt. simpl in Hlt. lia. }
  assert (Hk : In g (map fst (info_for_podium_step scoring fd totals kind config
                                (single_query defs results)))).
  { apply info_key_iff. change g with (fst (g, a)). now apply in_map. }
  apply in_map_iff in Hk. destruct Hk as ([g' l] & E & Hl). simpl in E. subst g'.
  assert (Hal : In a l) by (now apply (In_ranked scoring _ _ _ _ _ _ _ _ Hl)).
  assert (Ea : Agg.abstained a = wrap_u32 (total_of fd selection g - Frame.len rows))
    by reflexivity.
  exists df, out, d, p, l, a.
  split; [exact Ej |]. split; [exact Es |]. split; [exact Hd |]. split; [exact Eg |].
  split; [exact Ep |].
  split; [rewrite Hr; apply lookup_In; auto using NoDup_info_keys |].
  split; [exact Hal |]. split; [reflexivity |]. split; [exact Ea |].
  split; [rewrite Ea; apply wrap_u32_range |].
  split; [intros Hle; rewrite Ea; apply wrap_u32_neg; lia |].
  destruct (make_podium_inv defs _ _ _ _ Ep) as (_ & _ & _ & Hk).
  destruct (Hk kind) as [-> _]. rewrite Hr.
  erewrite lookup_In; eauto using NoDup_info_keys.
  simpl. now apply in_map.
Qed.

End Totality.

(** ** Filters at the entry of the pipeline *)

Section EntryFilters.

Context {F : FloatOrd} {py : PyStr}.
Variable defs : Defs.
Variable scoring : Scoring F.

(** C7: two results frames with the same rows outside the flagged
    disagreements, in the same order, give the same files with the same
    records: flagged rows, added or removed, change nothing. *)
Theorem disagreements_do_not_contribute config selection
    (results results' : list (Results.raw F)) :
  filter (fun r => negb (Results.disagreements r)) results
  = filter (fun r => negb (Results.disagreements r)) results' ->
  export_results defs scoring config selection results
  = export_results defs scoring config selection results'.
Proof.
  intros H. unfold export_results, undisputed. now rewrite H.
Qed.

(** C8: two results frames with the same single-query rows give the same
    output, whatever their rows of other tracks are; and every row that
    reaches the variant filter is a row of the single-query track, without
    its track column. *)
Theorem only_single_query_rows_contribute config selection
    (results results' : list (Results.tracked F)) fd :
  (filter (fun r => Results.track r =? Track_SingleQuery defs) results
   = filter (fun r => Results.track r =? Track_SingleQuery defs) results' ->
   sq_generate_datas defs scoring config selection results fd
   = sq_generate_datas defs scoring config selection results' fd) /\
  (forall r, In r (single_query defs results) ->
     exists t, In t results /\ Results.track t = Track_SingleQuery defs /\
               Results.drop_track t = r).
Proof.
  split.
  - intros H. unfold sq_generate_datas, single_query. now rewrite H.
  - intros r Hr. unfold single_query in Hr.
    apply in_map_iff in Hr. destruct Hr as (t & E & Ht).
    apply filter_In in Ht. destruct Ht as [Ht Etr].
    exists t. repeat split; auto. now apply Z.eqb_eq.
Qed.

End EntryFilters.

(** ** The logic counts of a division *)

Section Logics.
Import Frame FrameFacts PyDictFacts Cmp CmpFacts.

Context {F : FloatOrd}.
Variable defs : Defs.
Variable scoring : Scoring F.

Lemma keyb_pairZ a b a' b' :
  keyb pairZ_dec (a, b) (a', b') = (a =? a') && (b =? b').
Proof.
  unfold keyb. destruct (pairZ_dec (a, b) (a', b')) as [E | n].
  - inversion E; subst. now rewrite !Z.eqb_refl.
  - symmetry. apply andb_false_iff.
    destruct (Z.eqb_spec a a'); [| now left].
    destruct (Z.eqb_spec b b'); [| now right]. congruence.
Qed.

Lemma NoDup_map_inj_on {A B C : Type} (f : A -> B) (h : B -> C) l :
  NoDup (map f l) ->
  (forall x y, In x l -> In y l -> h (f x) = h (f y) -> f x = f y) ->
  NoDup (map (fun x => h (f x)) l).
Proof.
  induction l as [| x l IH]; simpl; intros Hd Hi; [constructor |].
  inversion Hd; subst. constructor.
  - intros Hin. apply H1. apply in_map_iff in Hin. destruct Hin as (y & E & Hy).
    rewrite (Hi x y); auto. now apply in_map.
  - apply IH; auto.
Qed.

Lemma len_filter_pos {A : Type} (p : A -> bool) l :
  0 < Frame.len (filter p l) <-> exists x, In x l /\ p x = true.
Proof.
  unfold Frame.len. split.
  - destruct (filter p l) as [| x xs] eqn:E; [simpl; lia |].
    intros _. exists x. apply filter_In. rewrite E. now left.
  - intros (x & Hx). apply filter_In in Hx.
    destruct (filter p l); [destruct Hx | simpl; lia].
Qed.

(** The nested counts of a division: one pair per logic of the division,
    with the number of rows of that logic. *)
Lemma In_lf_logics selection g l :
  In (g, l) (lf_logics (selected_rows selection)) ->
  NoDup (map fst l) /\
  forall lg n, In (lg, n) l <-> 0 < n /\ n = logic_count selection g lg.
Proof.
  unfold lf_logics.
  set (counted := map (fun b => (fst b, Frame.len (snd b))) _).
  intros H. apply in_map_iff in H. destruct H as ([g' b] & E & H).
  simpl in E. inversion E; subst g' l. clear E.
  apply In_group_by in H. destruct H as [_ ->].
  assert (Hc : forall d lg n, In ((d, lg), n) counted <->
                              0 < n /\ n = logic_count selection d lg).
  { intros d lg n. unfold counted, logic_count. rewrite in_map_iff. split.
    - intros ([k rows] & Ek & Hk). simpl in Ek. inversion Ek; subst k n.
      apply In_group_by in Hk. destruct Hk as [Hk ->].
      erewrite filter_ext; [| intros x; apply keyb_pairZ].
      split; auto.
      apply len_filter_pos.
      apply in_map_iff in Hk. destruct Hk as (x & Ex & Hx). inversion Ex; subst.
      exists x. split; auto. now rewrite !Z.eqb_refl.
    - intros [Hpos ->].
      exists ((d, lg),
              filter (fun r => keyb pairZ_dec (Selection.division r, Selection.logic r) (d, lg))
                     (selected_rows selection)).
      split.
      + simpl. f_equal. f_equal.
        apply filter_ext. intros x. apply keyb_pairZ.
      + apply In_group_by. split; [| reflexivity].
        apply len_filter_pos in Hpos. destruct Hpos as (x & Hi & Hx).
        apply andb_true_iff in Hx. destruct Hx as [H1 H2].
        apply Z.eqb_eq in H1, H2. subst. apply in_map_iff. eauto. }
  split.
  - rewrite map_map. simpl.
    apply (NoDup_map_inj_on fst snd).
    + apply NoDup_map_filter. unfold counted. rewrite map_map. simpl.
      apply (NoDup_group_by pairZ_dec).
    + intros [[d1 l1] n1] [[d2 l2] n2] H1 H2. simpl. intros ->.
      apply filter_In in H1, H2. destruct H1 as [_ H1], H2 as [_ H2].
      apply keyb_true in H1, H2. simpl in H1, H2. congruence.
  - intros lg n. rewrite <- Hc, in_map_iff. split.
    + intros ([[d lg'] n'] & E & H). simpl in E. inversion E; subst.
      apply filter_In in H. destruct H as [H Hk].
      apply keyb_true in Hk. simpl in Hk. now subst.
    + intros H. exists ((g, lg), n). split; auto.
      apply filter_In. split; auto. apply keyb_refl.
Qed.

Lemma cmp_item_order : TotalPreorder PyDict.cmp_item.
Proof.
  unfold PyDict.cmp_item.
  apply lex_order; apply on_order; [apply string_order | apply Z_order].
Qed.

(** Sorting the items of a dictionary gives a list strictly ascending in
    the keys, which [dict] keeps as it is. *)
Lemma sorted_items_spec (d : list (string * Z)) :
  NoDup (map fst d) ->
  StronglySorted (fun a b => String.compare (fst a) (fst b) = Lt) (PyDict.sorted_items d) /\
  Permutation (PyDict.sorted_items d) d /\
  PyDict.of_items (PyDict.sorted_items d) = PyDict.sorted_items d.
Proof.
  intros Hd. pose proof cmp_item_order as TP.
  assert (Hp : Permutation (PyDict.sorted_items d) d) by apply sort_perm.
  assert (Hn : NoDup (map fst (PyDict.sorted_items d))).
  { eapply Permutation_NoDup; [| exact Hd].
    apply Permutation_map. now symmetry. }
  split; [| split; auto using of_items_NoDup].
  assert (Hs : StronglySorted (fun a b => leb PyDict.cmp_item a b = true)
                 (PyDict.sorted_items d)).
  { apply sort_sorted; [apply leb_total | apply leb_trans]; exact TP. }
  pose proof (StronglySorted_NoDup _ fst _ Hs Hn) as Hsd.
  eapply StronglySorted_map with (f := fun a => a) in Hsd.
  - rewrite map_id in Hsd. exact Hsd.
  - simpl. intros [k1 v1] [k2 v2] _ _ [Hle Hne]. simpl in *.
    unfold leb, PyDict.cmp_item, lex, on in Hle. simpl in Hle.
    destruct (String.compare k1 k2) eqn:E; auto; try discriminate.
    apply String.compare_eq_iff in E. contradiction.
Qed.


End Logics.


(** ** Sums over the groups of a frame *)

Section Partition.
Import Frame FrameFacts.

Lemma fold_add_acc l a : fold_left Z.add l a = a + fold_left Z.add l 0.
Proof.
  revert a. induction l as [| x l IH]; intros a; simpl; [lia |].
  rewrite (IH (a + x)), (IH x). lia.
Qed.

Lemma sum_cons x l : Frame.sum (x :: l) = x + Frame.sum l.
Proof. unfold Frame.sum. simpl. apply fold_add_acc. Qed.

Lemma sum_perm l l' : Permutation l l' -> Frame.sum l = Frame.sum l'.
Proof.
  induction 1; rewrite ?sum_cons; lia.
Qed.

Lemma len_filter_split {A : Type} (p : A -> bool) l :
  Frame.len l = Frame.len (filter p l) + Frame.len (filter (fun x => negb (p x)) l).
Proof.
  unfold Frame.len. rewrite <- Nat2Z.inj_add. f_equal.
  symmetry. apply filter_length.
Qed.

Lemma filter_filter {A : Type} (p q : A -> bool) l :
  filter p (filter q l) = filter (fun x => q x && p x) l.
Proof.
  induction l as [| x l IH]; simpl; auto.
  destruct (q x); simpl; [destruct (p x) |]; now rewrite IH.
Qed.

(** The buckets of distinct keys that cover a frame have as many rows as
    the frame. *)
Lemma sum_len_partition {A K : Type} (K_dec : forall x y : K, {x = y} + {x <> y})
    (key : A -> K) ks : forall rows,
  NoDup ks -> (forall r, In r rows -> In (key r) ks) ->
  Frame.sum (map (fun k => Frame.len (filter (fun r => keyb K_dec (key r) k) rows)) ks)
  = Frame.len rows.
Proof.
  induction ks as [| k ks IH]; intros rows Hd Hin.
  - destruct rows as [| r rows]; [reflexivity |]. destruct (Hin r (or_introl eq_refl)).
  - inversion Hd; subst. simpl map. rewrite sum_cons.
    rewrite (len_filter_split (fun r => keyb K_dec (key r) k) rows). f_equal.
    rewrite <- (IH (filter (fun r => negb (keyb K_dec (key r) k)) rows)); auto.
    + f_equal. apply map_ext_in. intros k' Hk'. f_equal.
      rewrite filter_filter. apply filter_ext. intros r.
      destruct (keyb K_dec (key r) k) eqn:E; simpl; auto.
      apply keyb_true in E. subst k.
      destruct (keyb K_dec (key r) k') eqn:E'; auto.
      apply keyb_true in E'. subst k'. contradiction.
    + intros r Hr. apply filter_In in Hr. destruct Hr as [Hr Hk].
      destruct (Hin r Hr) as [E | H]; auto.
      subst k. rewrite keyb_refl in Hk. discriminate.
Qed.

(** [agg(total=pl.len())] after a [group_by] shares out the rows. *)
Lemma sum_len_by_division fd selection :
  Frame.sum (map snd (len_by_division fd selection)) = Frame.len selection.
Proof.
  unfold len_by_division, group_by. rewrite !map_map. simpl.
  apply (sum_len_partition Z.eq_dec (Selection.col fd)); [apply NoDup_unique |].
  intros r Hr. apply In_unique. now apply in_map.
Qed.

End Partition.

(** ** The records of the output *)

Section Output.
Import Frame FrameFacts PyDictFacts Cmp CmpFacts.

Context {F : FloatOrd}.
Variable defs : Defs.
Variable scoring : Scoring F.

Lemma totals_keys_pos fd selection g :
  In g (map fst (len_by_division fd (selected_rows selection))) <->
  0 < total_of fd selection g.
Proof.
  split.
  - intros H. apply in_map_iff in H. destruct H as ([g' t] & E & H). simpl in E. subst g'.
    apply total_of_spec in H. destruct H as [-> H]. exact H.
  - intros H. apply total_of_pos in H.
    change g with (fst (g, total_of fd selection g)). now apply in_map.
Qed.

Lemma Forall2_map_eq {A B C : Type} (R : A -> B -> Prop) (f : A -> C) (h : B -> C) l l' :
  Forall2 R l l' -> (forall a b, R a b -> f a = h b) -> map f l = map h l'.
Proof.
  induction 1 as [| a b l l' HR HF IH]; intros H; simpl; [reflexivity |].
  rewrite (H a b HR), IH; auto.
Qed.

Lemma NoDup_ranked_solvers fd totals kind config results g l :
  In (g, l) (info_for_podium_step scoring fd totals kind config results) ->
  NoDup (map Agg.solver l).
Proof.
  intros H. apply In_info in H. destruct H as [_ ->].
  rewrite map_map.
  set (key := fun x : Z * Agg.t F => (fst x, Agg.solver (snd x))).
  apply (NoDup_map_inj_on key snd).
  - apply NoDup_map_filter.
    eapply Permutation_NoDup;
      [| apply (NoDup_aggregated_keys scoring fd totals kind config results)].
    apply Permutation_map. symmetry. apply sort_perm.
  - intros [g1 a1] [g2 a2] H1 H2. unfold key. simpl. intros ->.
    apply filter_In in H1, H2. destruct H1 as [_ H1], H2 as [_ H2].
    apply keyb_true in H1, H2. simpl in H1, H2. congruence.
Qed.

(** The rows of a group are shared out among its solvers. *)
Lemma contributed_In fd kind config results g s r :
  In r (contributed scoring fd kind config results g s) <->
  In r (rows_of_group scoring fd kind config results g) /\ Results.solver r = s.
Proof.
  unfold contributed, rows_of_group. rewrite !filter_In, andb_true_iff.
  rewrite String.eqb_eq. tauto.
Qed.

(** What a record of the output is made of: the group, its total, and for
    every variant the ranked list that the record emits. *)
Lemma record_lists config selection results fd out nm p :
  sq_generate_datas defs scoring config selection results fd = Ok out ->
  In (nm, p) out ->
  exists g,
    nm = name_of_int defs fd g /\
    PodiumDivision.division p = nm /\
    0 < total_of fd selection g /\
    PodiumDivision.n_benchmarks p = total_of fd selection g /\
    forall k, exists l,
      ranked_of k p = map podium_step l /\
      winner_of k p = winner_rule (ranked_of k p) /\
      NoDup (map Agg.solver l) /\
      StronglySorted (fun a b => cmp_rank scoring a b = Gt) l /\
      forall a, In a l <->
                contributed scoring fd k config (single_query defs results) g (Agg.solver a)
                <> [] /\
                a = aggregate_of scoring (Agg.solver a) (total_of fd selection g)
                      (contributed scoring fd k config (single_query defs results) g
                         (Agg.solver a)).
Proof.
  intros Eo Hin.
  destruct (sq_generate_datas_In defs scoring _ _ _ _ _ _ _ Eo Hin)
    as (d & En & Ep & Ht & Hr & _).
  destruct (make_podium_inv defs _ _ _ _ Ep) as (Ed & Eb & _ & Hk).
  set (g := Joined.group d) in *.
  set (totals := len_by_division fd (selected_rows selection)) in *.
  pose proof (total_of_spec fd selection g _ Ht) as [Et Hpos].
  exists g. split; [exact En |]. split; [congruence |].
  split; [now rewrite <- Et |]. split; [congruence |].
  intros k. destruct (Hk k) as [Hl Hw].
  apply get_winner_rule in Hw. rewrite <- Hl in Hw.
  rewrite Hr in Hl.
  assert (Hagg : forall a,
             In (g, a) (aggregated scoring fd totals k config (single_query defs results)) <->
             contributed scoring fd k config (single_query defs results) g (Agg.solver a)
             <> [] /\
             a = aggregate_of scoring (Agg.solver a) (total_of fd selection g)
                   (contributed scoring fd k config (single_query defs results) g
                      (Agg.solver a))).
  { intros a. rewrite aggregated_entry by apply NoDup_len_by_division. split.
    - intros (t & Hin' & Hne & E).
      apply total_of_spec in Hin'. destruct Hin' as [-> _]. auto.
    - intros [Hne E]. exists (total_of fd selection g). rewrite <- Et at 1. auto. }
  destruct (lookup Z.eq_dec g (info_for_podium_step scoring fd totals k config
                                 (single_query defs results))) as [l |] eqn:El.
  - apply lookup_Some_In in El. exists l. simpl in Hl.
    split; [exact Hl |]. split; [exact Hw |].
    split; [eapply NoDup_ranked_solvers; eauto |].
    split; [eapply ranked_strict; eauto |].
    intros a. rewrite <- Hagg. eapply In_ranked; eauto.
  - exists []. simpl in Hl.
    split; [exact Hl |]. split; [exact Hw |].
    split; [constructor |]. split; [constructor |].
    intros a. rewrite <- Hagg. split; [intros [] |].
    intros Ha. apply lookup_None in El. apply El, info_key_iff.
    change g with (fst (g, a)). now apply in_map.
Qed.

(** Under distinct names the dictionary holds the records of the rows of
    the joined frame, one by one. *)
Lemma sq_generate_datas_distinct config selection results fd out :
  distinct_names defs fd selection ->
  sq_generate_datas defs scoring config selection results fd = Ok out ->
  exists df,
    joined scoring config (selected_rows selection) (single_query defs results) fd = Ok df /\
    map (fun d => (Joined.group d, Joined.total d)) df
    = len_by_division fd (selected_rows selection) /\
    Forall2 (fun d it => fst it = name_of_int defs fd (Joined.group d) /\
                         make_podium defs config d fd = Ok (snd it)) df out.
Proof.
  intros Hinj Eo.
  destruct (joined_spec scoring config (selected_rows selection)
              (single_query defs results) fd) as (df & Ej & Hk & _).
  destruct (sq_generate_datas_spec defs scoring config selection results fd)
    as (df' & items & Ej' & Hf & Es).
  rewrite Ej in Ej'. inversion Ej'; subst df'.
  rewrite Eo in Es. inversion Es; subst out.
  exists df. split; [exact Ej |]. split; [exact Hk |].
  rewrite of_items_NoDup; [exact Hf |].
  rewrite <- (Forall2_map_eq _ (fun d => name_of_int defs fd (Joined.group d)) fst _ _ Hf)
    by (intros a b [E _]; now symmetry).
  assert (Eg : map Joined.group df = map fst (len_by_division fd (selected_rows selection))).
  { rewrite <- Hk, map_map. reflexivity. }
  rewrite <- (map_map Joined.group (name_of_int defs fd)), Eg.
  apply (NoDup_map_inj_on (fun x => x) (name_of_int defs fd)).
  - rewrite map_id. apply NoDup_len_by_division.
  - intros x y Hx Hy E. apply Hinj; auto; now apply totals_keys_pos.
Qed.

(** The keys of the output dictionary. *)
Lemma output_keys config selection results fd out :
  sq_generate_datas defs scoring config selection results fd = Ok out ->
  NoDup (map fst out) /\
  forall nm, In nm (map fst out) <->
             exists g, nm = name_of_int defs fd g /\ 0 < total_of fd selection g.
Proof.
  intros Eo.
  destruct (joined_spec scoring config (selected_rows selection)
              (single_query defs results) fd) as (df & Ej & Hk & _).
  destruct (sq_generate_datas_spec defs scoring config selection results fd)
    as (df' & items & Ej' & Hf & Es).
  rewrite Ej in Ej'. inversion Ej'; subst df'.
  rewrite Eo in Es. inversion Es; subst out.
  split; [apply NoDup_of_items |].
  intros nm. rewrite of_items_keys.
  rewrite <- (Forall2_map_eq _ (fun d => name_of_int defs fd (Joined.group d)) fst _ _ Hf)
    by (intros a b [E _]; now symmetry).
  assert (Eg : map Joined.group df = map fst (len_by_division fd (selected_rows selection))).
  { rewrite <- Hk, map_map. reflexivity. }
  rewrite <- (map_map Joined.group (name_of_int defs fd)), Eg, in_map_iff.
  split.
  - intros (g & E & Hg). exists g. split; auto. now apply totals_keys_pos.
  - intros (g & E & Hg). exists g. split; auto. now apply totals_keys_pos.
Qed.

End Output.

(** ** Further properties of the pipeline *)

Section Further.
Import Frame FrameFacts PyDictFacts Cmp CmpFacts.

Context {F : FloatOrd} {py : PyStr}.
Variable defs : Defs.
Variable scoring : Scoring F.

(** X1: [export_results] raises nothing, whatever the frames are: both
    passes return their dictionary, no error is left at the end, and the
    records written are those of the division pass followed by those of the
    logic pass, one file for each entry of the two dictionaries. *)
Theorem export_results_never_fails config selection (results : list (Results.raw F)) :
  exists by_division by_logic,
    sq_generate_datas defs scoring config selection (undisputed results) true
    = Ok by_division /\
    sq_generate_datas defs scoring config selection (undisputed results) false
    = Ok by_logic /\
    snd (export_results defs scoring config selection results) = None /\
    map snd (fst (export_results defs scoring config selection results))
    = map snd by_division ++ map snd by_logic.
Proof.
  destruct (sq_generate_datas_spec defs scoring config selection (undisputed results) true)
    as (_ & i1 & _ & _ & E1).
  destruct (sq_generate_datas_spec defs scoring config selection (undisputed results) false)
    as (_ & i2 & _ & _ & E2).
  exists (PyDict.of_items i1), (PyDict.of_items i2).
  split; [exact E1 |]. split; [exact E2 |].
  assert (E : export_results defs scoring config selection results
              = (map file_of (PyDict.of_items i1) ++ map file_of (PyDict.of_items i2), None)).
  { unfold export_results. cbn [fold_left snd fst]. rewrite E1. cbn [snd fst].
    rewrite E2. reflexivity. }
  rewrite E. cbn [fst snd]. split; [reflexivity |].
  rewrite map_app, !map_map. reflexivity.
Qed.



(** X4: when the groups with a selected benchmark have distinct names, the
    [n_benchmarks] of the records add up to the number of selected
    benchmarks: every selected benchmark is counted in one record. *)
Theorem totals_add_up_to_selected config selection results fd out :
  distinct_names defs fd selection ->
  sq_generate_datas defs scoring config selection results fd = Ok out ->
  Frame.sum (map (fun it => PodiumDivision.n_benchmarks (snd it)) out)
  = Frame.len (selected_rows selection).
Proof.
  intros Hinj Eo.
  destruct (sq_generate_datas_distinct defs scoring _ _ _ _ _ Hinj Eo)
    as (df & _ & Hk & Hf).
  rewrite <- (Forall2_map_eq _ Joined.total
                (fun it => PodiumDivision.n_benchmarks (snd it)) _ _ Hf).
  - rewrite <- (sum_len_by_division fd (selected_rows selection)), <- Hk, map_map.
    reflexivity.
  - intros d it [_ Ep]. destruct (make_podium_inv defs _ _ _ _ Ep) as (_ & Eb & _).
    now symmetry.
Qed.

Lemma cmp_step_podium_step a b :
  cmp_step scoring (podium_step a) (podium_step b) = cmp_rank scoring a b.
Proof.
  unfold cmp_step, cmp_rank, lex, on. cbn [podium_step PodiumStep.name].
  assert (E : forall fs, cmp_step_scores fs (podium_step a) (podium_step b)
                         = cmp_scores fs a b).
  { induction fs as [| f fs IH]; [reflexivity |].
    cbn [cmp_step_scores cmp_scores]. unfold lex. rewrite IH.
    destruct f; cbn; rewrite ?Z.opp_involutive; reflexivity. }
  now rewrite E.
Qed.

Lemma count_bounds {A : Type} (q : A -> bool) rows :
  0 <= Frame.count q rows <= Frame.len rows.
Proof.
  unfold Frame.count, Frame.len. pose proof (filter_length_le q rows). lia.
Qed.

Lemma map_podium_step_nil (l : list (Agg.t F)) : map podium_step l = [] -> l = [].
Proof. destruct l; [reflexivity | discriminate]. Qed.

(** X5: in every emitted list a solver appears once at most, and the
    solvers that appear are exactly those with a row of the variant in the
    group: a solver without a row of the variant is not listed. *)
Theorem listed_solvers_have_rows config selection results fd out nm p k :
  sq_generate_datas defs scoring config selection results fd = Ok out ->
  In (nm, p) out ->
  exists g,
    nm = name_of_int defs fd g /\
    NoDup (map PodiumStep.name (ranked_of k p)) /\
    forall s, In s (map PodiumStep.name (ranked_of k p)) <->
              contributed scoring fd k config (single_query defs results) g s <> [].
Proof.
  intros Eo Hin.
  destruct (record_lists defs scoring _ _ _ _ _ _ _ Eo Hin) as (g & En & _ & _ & _ & Hk).
  destruct (Hk k) as (l & El & _ & Hd & _ & Hl).
  exists g. split; [exact En |].
  assert (Em : map PodiumStep.name (ranked_of k p) = map Agg.solver l).
  { rewrite El, map_map. reflexivity. }
  rewrite Em. split; [exact Hd |].
  intros s. rewrite in_map_iff. split.
  - intros (a & <- & Ha). apply Hl in Ha. tauto.
  - intros Hne.
    exists (aggregate_of scoring s (total_of fd selection g)
              (contributed scoring fd k config (single_query defs results) g s)).
    split; [reflexivity |]. apply Hl. simpl. auto.
Qed.

(** X6: the emitted list of a variant is empty exactly when the variant has
    no row in the group, and then the winner is "-". *)
Theorem empty_list_iff_no_rows config selection results fd out nm p k :
  sq_generate_datas defs scoring config selection results fd = Ok out ->
  In (nm, p) out ->
  exists g,
    nm = name_of_int defs fd g /\
    (ranked_of k p = [] <->
     rows_of_group scoring fd k config (single_query defs results) g = []) /\
    (ranked_of k p = [] -> winner_of k p = "-"%string).
Proof.
  intros Eo Hin.
  destruct (record_lists defs scoring _ _ _ _ _ _ _ Eo Hin) as (g & En & _ & _ & _ & Hk).
  destruct (Hk k) as (l & El & Ew & _ & _ & Hl).
  exists g. split; [exact En |]. split; [| intros E; now rewrite Ew, E].
  rewrite El. split.
  - intros E. apply map_podium_step_nil in E. subst l.
    destruct (rows_of_group scoring fd k config (single_query defs results) g)
      as [| r rs] eqn:Er; [reflexivity |].
    exfalso.
    assert (Hr : In r (contributed scoring fd k config (single_query defs results) g
                         (Results.solver r))).
    { apply contributed_In. rewrite Er. split; [now left | reflexivity]. }
    apply (proj2 (Hl (aggregate_of scoring (Results.solver r) (total_of fd selection g)
                        (contributed scoring fd k config (single_query defs results) g
                           (Results.solver r))))).
    simpl. split; [| reflexivity]. intros E. rewrite E in Hr. exact Hr.
  - intros Er. destruct l as [| a l]; [reflexivity |]. exfalso.
    destruct (proj1 (Hl a) (or_introl eq_refl)) as [Hne _].
    destruct (contributed scoring fd k config (single_query defs results) g (Agg.solver a))
      as [| r rs] eqn:Ec; [congruence |].
    assert (Hr : In r (rows_of_group scoring fd k config (single_query defs results) g)).
    { apply (contributed_In scoring fd k config (single_query defs results) g (Agg.solver a)).
      rewrite Ec. now left. }
    rewrite Er in Hr. exact Hr.
Qed.

(** X7: every listed solver has at least one row, and each of its outcome
    counts lies between zero and the number of its rows.  Its abstained
    count is the UInt32 difference of [n_benchmarks] and its rows, so it is
    never negative; when the rows do not exceed [n_benchmarks] it is
    [n_benchmarks] minus the rows, hence below [n_benchmarks]. *)
Theorem counts_within_rows config selection results fd out nm p k step :
  sq_generate_datas defs scoring config selection results fd = Ok out ->
  In (nm, p) out ->
  In step (ranked_of k p) ->
  exists g n,
    nm = name_of_int defs fd g /\
    n = Frame.len (contributed scoring fd k config (single_query defs results) g
                     (PodiumStep.name step)) /\
    1 <= n /\
    0 <= PodiumStep.solved step <= n /\
    0 <= PodiumStep.solved_sat step <= n /\
    0 <= PodiumStep.solved_unsat step <= n /\
    0 <= PodiumStep.unsolved step <= n /\
    0 <= PodiumStep.timeout step <= n /\
    0 <= PodiumStep.memout step <= n /\
    PodiumStep.abstained step = wrap_u32 (PodiumDivision.n_benchmarks p - n) /\
    0 <= PodiumStep.abstained step < 2 ^ 32 /\
    (n <= PodiumDivision.n_benchmarks p < 2 ^ 32 ->
     PodiumStep.abstained step = PodiumDivision.n_benchmarks p - n /\
     PodiumStep.abstained step < PodiumDivision.n_benchmarks p).
Proof.
  intros Eo Hin Hs.
  destruct (record_lists defs scoring _ _ _ _ _ _ _ Eo Hin) as (g & En & _ & _ & Eb & Hk).
  destruct (Hk k) as (l & El & _ & _ & _ & Hl).
  rewrite El in Hs. apply in_map_iff in Hs. destruct Hs as (a & <- & Ha).
  apply Hl in Ha. destruct Ha as [Hne Ea].
  set (rows := contributed scoring fd k config (single_query defs results) g (Agg.solver a))
    in *.
  exists g, (Frame.len rows). cbn [podium_step PodiumStep.name]. fold rows.
  assert (Hn : 1 <= Frame.len rows).
  { unfold Frame.len. destruct rows; [congruence | simpl; lia]. }
  split; [exact En |]. split; [reflexivity |]. split; [exact Hn |].
  rewrite Ea, Eb.
  cbn [podium_step aggregate_of Agg.solved Agg.solved_sat Agg.solved_unsat Agg.unsolved
       Agg.timeout Agg.memout Agg.abstained PodiumStep.solved PodiumStep.solved_sat
       PodiumStep.solved_unsat PodiumStep.unsolved PodiumStep.timeout PodiumStep.memout
       PodiumStep.abstained].
  repeat (split; [apply count_bounds |]).
  split; [reflexivity |]. split; [apply wrap_u32_range |].
  intros H. rewrite wrap_u32_small by lia. lia.
Qed.

Lemma count_sat_unsat (rows : list (Results.row F)) :
  (forall r, In r rows ->
     (sat_answer scoring r = true -> known_answer scoring r = true) /\
     (unsat_answer scoring r = true -> known_answer scoring r = true) /\
     (sat_answer scoring r = true -> unsat_answer scoring r = false)) ->
  Frame.count (sat_answer scoring) rows + Frame.count (unsat_answer scoring) rows
  <= Frame.count (known_answer scoring) rows.
Proof.
  induction rows as [| r rows IH]; intros Hc; [reflexivity |].
  rewrite !count_cons.
  specialize (IH (fun r' Hr' => Hc r' (or_intror Hr'))).
  destruct (Hc r (or_introl eq_refl)) as (H1 & H2 & H3).
  destruct (sat_answer scoring r), (unsat_answer scoring r), (known_answer scoring r);
    cbn [Z.b2z]; try lia;
    try (specialize (H1 eq_refl)); try (specialize (H2 eq_refl));
    try (specialize (H3 eq_refl)); discriminate.
Qed.

(** X8: when on the rows of the variant a sat answer and an unsat answer
    are both solved answers and exclude each other, [solved_sat] and
    [solved_unsat] of every entry add up to [solved] at most. *)
Theorem sat_unsat_within_solved config selection results fd out nm p k step :
  (forall r, In r (filter_for scoring k config (single_query defs results)) ->
     (sat_answer scoring r = true -> known_answer scoring r = true) /\
     (unsat_answer scoring r = true -> known_answer scoring r = true) /\
     (sat_answer scoring r = true -> unsat_answer scoring r = false)) ->
  sq_generate_datas defs scoring config selection results fd = Ok out ->
  In (nm, p) out ->
  In step (ranked_of k p) ->
  PodiumStep.solved_sat step + PodiumStep.solved_unsat step <= PodiumStep.solved step.
Proof.
  intros Hc Eo Hin Hs.
  destruct (record_lists defs scoring _ _ _ _ _ _ _ Eo Hin) as (g & _ & _ & _ & _ & Hk).
  destruct (Hk k) as (l & El & _ & _ & _ & Hl).
  rewrite El in Hs. apply in_map_iff in Hs. destruct Hs as (a & <- & Ha).
  apply Hl in Ha. destruct Ha as [_ Ea]. rewrite Ea. cbn.
  apply count_sat_unsat. intros r Hr. apply Hc.
  unfold contributed in Hr. apply filter_In in Hr. tauto.
Qed.

(** X9: every emitted list is strictly descending in the sort columns read
    from the emitted fields, with [errorScore] negated back: emitting the
    entries keeps the rank order. *)
Theorem emitted_list_sorted config selection results fd out nm p k :
  sq_generate_datas defs scoring config selection results fd = Ok out ->
  In (nm, p) out ->
  StronglySorted (fun a b => cmp_step scoring a b = Gt) (ranked_of k p).
Proof.
  intros Eo Hin.
  destruct (record_lists defs scoring _ _ _ _ _ _ _ Eo Hin) as (g & _ & _ & _ & _ & Hk).
  destruct (Hk k) as (l & El & _ & _ & Hs & _). rewrite El.
  eapply StronglySorted_map; [| exact Hs].
  intros x y _ _ H. now rewrite cmp_step_podium_step.
Qed.

(** X10: a winner other than "-" is the name of the first entry of the
    list, which has a correctness score other than zero and ranks strictly
    above every other entry of the list. *)
Theorem winner_outranks_the_list config selection results fd out nm p k :
  sq_generate_datas defs scoring config selection results fd = Ok out ->
  In (nm, p) out ->
  winner_of k p <> "-"%string ->
  exists s t,
    ranked_of k p = s :: t /\
    PodiumStep.name s = winner_of k p /\
    PodiumStep.correctScore s <> 0 /\
    Forall (fun b => cmp_step scoring s b = Gt) t.
Proof.
  intros Eo Hin Hw.
  destruct (record_lists defs scoring _ _ _ _ _ _ _ Eo Hin) as (g & _ & _ & _ & _ & Hk).
  destruct (Hk k) as (l & El & Ew & _ & Hs & _).
  assert (Hsorted : StronglySorted (fun a b => cmp_step scoring a b = Gt) (ranked_of k p)).
  { rewrite El. eapply StronglySorted_map; [| exact Hs].
    intros x y _ _ H. now rewrite cmp_step_podium_step. }
  rewrite Ew in Hw |- *. unfold winner_rule in *.
  destruct (ranked_of k p) as [| s t]; [congruence |].
  exists s, t. split; [reflexivity |].
  destruct (Z.eqb_spec (PodiumStep.correctScore s) 0) as [E | E]; [congruence |].
  repeat split; auto. now inversion Hsorted.
Qed.

(** X11: [make_podium] raises exactly on a row whose nested logic counts
    are null while grouping by division, or one of whose five ranked lists is
    an empty list; a null list is accepted. *)
Theorem make_podium_accepts config (d : Joined.t F) fd :
  (exists p, make_podium defs config d fd = Ok p) <->
  (fd = true -> Joined.logics d <> None) /\
  (forall k, Joined.ranked d k <> Some []).
Proof.
  split.
  - intros (p & Ep). split.
    + intros -> E. unfold make_podium in Ep. rewrite E in Ep. discriminate.
    + intros k E. destruct (make_podium_inv defs _ _ _ _ Ep) as (_ & _ & _ & Hk).
      destruct (Hk k) as [_ Hw]. rewrite E in Hw. discriminate.
  - intros [Hl Hr]. now apply make_podium_total.
Qed.

(** X12: when the logics of each division have distinct names, the logic
    counts of a division record add up to its [n_benchmarks]. *)
Theorem logic_counts_add_up config selection results out nm p :
  (forall g a b, 0 < logic_count selection g a -> 0 < logic_count selection g b ->
                 Logic_name_of_int defs a = Logic_name_of_int defs b -> a = b) ->
  sq_generate_datas defs scoring config selection results true = Ok out ->
  In (nm, p) out ->
  Frame.sum (map snd (PodiumDivision.logics p)) = PodiumDivision.n_benchmarks p.
Proof.
  intros Hinj Eo Hin.
  destruct (sq_generate_datas_In defs scoring _ _ _ _ _ _ _ Eo Hin)
    as (d & _ & Ep & Ht & _ & Hlg).
  destruct (make_podium_inv defs _ _ _ _ Ep) as (_ & Eb & El & _).
  rewrite El, Eb. unfold logics_of.
  unfold make_podium in Ep. rewrite Hlg in *.
  destruct (lookup Z.eq_dec (Joined.group d) (lf_logics (selected_rows selection)))
    as [l |] eqn:Ed; [clear Ep | discriminate].
  apply lookup_Some_In in Ed. apply In_lf_logics in Ed. destruct Ed as [Hnd Hl].
  set (g := Joined.group d) in *.
  set (items := map (fun d2 => (Logic_name_of_int defs (fst d2), snd d2)) l).
  assert (Hni : NoDup (map fst items)).
  { unfold items. rewrite map_map. cbn [fst].
    apply (NoDup_map_inj_on fst (Logic_name_of_int defs)); [exact Hnd |].
    intros [a n] [b m] Ha Hb E. cbn [fst] in *.
    apply Hl in Ha, Hb. destruct Ha as [Ha ->], Hb as [Hb ->].
    apply (Hinj g); auto. }
  rewrite (of_items_NoDup items Hni).
  destruct (sorted_items_spec items Hni) as (_ & Hp & Eof). rewrite Eof.
  rewrite (sum_perm _ _ (Permutation_map snd Hp)).
  unfold items. rewrite map_map. cbn [snd].
  apply total_of_spec in Ht. destruct Ht as [-> _].
  rewrite (map_ext_in (fun x : Z * Z => snd x)
             (fun x => Frame.len
                         (filter (fun r => keyb Z.eq_dec (Selection.logic r) (fst x))
                            (filter (fun r => Selection.division r =? g)
                               (selected_rows selection))))).
  - rewrite <- (map_map fst (fun lg => Frame.len
                                         (filter (fun r => keyb Z.eq_dec (Selection.logic r) lg)
                                            (filter (fun r => Selection.division r =? g)
                                               (selected_rows selection))))).
    rewrite (sum_len_partition Z.eq_dec Selection.logic); [reflexivity | exact Hnd |].
    intros r Hr. apply filter_In in Hr. destruct Hr as [Hr Hg].
    assert (Hpos : 0 < logic_count selection g (Selection.logic r)).
    { apply len_filter_pos. exists r. split; auto.
      now rewrite Hg, Z.eqb_refl. }
    change (Selection.logic r)
      with (fst (Selection.logic r, logic_count selection g (Selection.logic r))).
    apply in_map. apply Hl. auto.
  - intros [lg n] Hx. cbn [fst snd]. apply Hl in Hx. destruct Hx as [_ ->].
    unfold logic_count. rewrite filter_filter. f_equal.
    apply filter_ext. intros r. now rewrite keyb_Z.
Qed.

Lemma len_filter_le {A : Type} (q q' : A -> bool) l :
  (forall x, q x = true -> q' x = true) ->
  Frame.len (filter q l) <= Frame.len (filter q' l).
Proof.
  intros H. unfold Frame.len. apply inj_le.
  induction l as [| x l IH]; simpl; [lia |].
  destruct (q x) eqn:E; [rewrite (H x E); simpl; lia |].
  destruct (q' x); simpl; lia.
Qed.

(** Every item of the logic counts of a division record is a logic of the
    division with its number of selected benchmarks. *)
Lemma logics_items config selection results out nm p key n :
  sq_generate_datas defs scoring config selection results true = Ok out ->
  In (nm, p) out ->
  In (key, n) (PodiumDivision.logics p) ->
  exists g lg, key = Logic_name_of_int defs lg /\
               n = logic_count selection g lg /\ 0 < n.
Proof.
  intros Eo Hin Hk.
  destruct (sq_generate_datas_In defs scoring _ _ _ _ _ _ _ Eo Hin)
    as (d & _ & Ep & _ & _ & Hlg).
  destruct (make_podium_inv defs _ _ _ _ Ep) as (_ & _ & El & _).
  rewrite El in Hk. unfold logics_of in Hk.
  unfold make_podium in Ep. rewrite Hlg in *.
  destruct (lookup Z.eq_dec (Joined.group d) (lf_logics (selected_rows selection)))
    as [l |] eqn:Ed; [clear Ep | discriminate].
  apply lookup_Some_In in Ed. apply In_lf_logics in Ed. destruct Ed as [_ Hl].
  apply In_of_items in Hk.
  apply (Permutation_in _ (sort_perm _ _)) in Hk.
  apply In_of_items in Hk. apply in_map_iff in Hk.
  destruct Hk as ([lg n'] & E & Hk). cbn [fst snd] in E. inversion E; subst key n'.
  apply Hl in Hk. destruct Hk as [Hpos ->].
  exists (Joined.group d), lg. auto.
Qed.

(** X13: the two passes agree.  Every logic listed in the logic counts of a
    division record has a record of its own in the output grouped by logic;
    when the logics with a selected benchmark have distinct names, its count
    in the division is at most the [n_benchmarks] of that record. *)
Theorem listed_logics_have_records config selection results by_division by_logic
    nm p key n :
  sq_generate_datas defs scoring config selection results true = Ok by_division ->
  sq_generate_datas defs scoring config selection results false = Ok by_logic ->
  In (nm, p) by_division ->
  In (key, n) (PodiumDivision.logics p) ->
  exists q,
    In (key, q) by_logic /\
    (distinct_names defs false selection -> n <= PodiumDivision.n_benchmarks q).
Proof.
  intros E1 E2 Hin Hk.
  destruct (logics_items _ _ _ _ _ _ _ _ E1 Hin Hk) as (g & lg & -> & -> & Hpos).
  assert (Hle : logic_count selection g lg <= total_of false selection lg).
  { unfold logic_count, total_of. apply len_filter_le.
    intros x Hx. apply andb_true_iff in Hx. exact (proj2 Hx). }
  assert (Hkey : In (Logic_name_of_int defs lg) (map fst by_logic)).
  { apply (output_keys defs scoring _ _ _ _ _ E2). exists lg. split; [reflexivity | lia]. }
  apply in_map_iff in Hkey. destruct Hkey as ([k' q] & Ek & Hq). cbn [fst] in Ek. subst k'.
  exists q. split; [exact Hq |].
  intros Hd.
  destruct (record_lists defs scoring _ _ _ _ _ _ _ E2 Hq) as (g' & En & _ & Hpos' & Eb & _).
  assert (Eg : lg = g') by (apply Hd; auto; lia).
  subst g'. rewrite Eb. exact Hle.
Qed.

End Further.

(** ** The theorems on the concrete competition *)

Import Example.

(** The list computed above is the ranked list of division 1. *)
Lemma ranked_arith_seq_In :
  In (1, ranked_arith_seq)
     (info_for_podium_step scoring true
        (len_by_division true (selected_rows selection)) Kind.seq config
        (single_query defs tracked)).
Proof. vm_compute. left. reflexivity. Qed.


(** The classifiers of the example give every row one outcome. *)
Lemma every_row_has_one_outcome :
  forall r, In r (filter_for scoring Kind.seq config rows) -> one_outcome scoring r.
Proof.
  intros r Hr. vm_compute in Hr.
  repeat (destruct Hr as [<- | Hr]; [reflexivity |]). destruct Hr.
Qed.

(** No solver of division 1 has more rows than the three selected
    benchmarks of the division. *)
Lemma rows_within_total :
  forall a, In a ranked_arith_seq ->
    Frame.len (contributed scoring true Kind.seq config rows 1 (Agg.solver a))
    <= total_of true selection 1 < 2 ^ 32.
Proof.
  intros a Ha.
  destruct Ha as [<- | [<- | [<- | []]]];
    (split; [apply Z.leb_le | apply Z.ltb_lt]; vm_compute; reflexivity).
Qed.

(** The counts of each of the three solvers add up to the three selected
    benchmarks of division 1. *)
Lemma counts_add_up_to_total_witness :
  (forall r, In r (filter_for scoring Kind.seq config rows) -> one_outcome scoring r) /\
  In (1, ranked_arith_seq)
     (info_for_podium_step scoring true
        (len_by_division true (selected_rows selection)) Kind.seq config rows) /\
  Forall (fun a =>
            Frame.len (contributed scoring true Kind.seq config rows 1 (Agg.solver a))
            <= total_of true selection 1 < 2 ^ 32 /\
            Agg.solved a + Agg.unsolved a + Agg.timeout a + Agg.memout a
            + Agg.abstained a = 3) ranked_arith_seq.
Proof.
  split; [exact every_row_has_one_outcome |].
  split; [exact ranked_arith_seq_In |].
  apply Forall_forall. intros a Ha.
  split; [exact (rows_within_total a Ha) |].
  exact (proj1 (counts_add_up_to_total scoring true selection Kind.seq config rows 1
                  ranked_arith_seq a every_row_has_one_outcome ranked_arith_seq_In Ha)
           (rows_within_total a Ha)).
Defined.

(** C3, as stated, fails: with one selected benchmark and two rows of the
    same solver, each row with one outcome, the counts of the solver add up
    to 2 + (2^32 - 1) = 4294967297 and not to the total, 1. *)
Lemma counts_exceed_total :
  (forall r, In r (filter_for scoring Kind.seq config (single_query defs results_twice)) ->
             one_outcome scoring r) /\
  exists l a,
    In (1, l) (info_for_podium_step scoring true
                 (len_by_division true (selected_rows selection_one)) Kind.seq config
                 (single_query defs results_twice)) /\
    In a l /\
    total_of true selection_one 1 = 1 /\
    Agg.solved a + Agg.unsolved a + Agg.timeout a + Agg.memout a + Agg.abstained a
    = 4294967297 /\
    Agg.solved a + Agg.unsolved a + Agg.timeout a + Agg.memout a + Agg.abstained a
    <> total_of true selection_one 1.
Proof.
  split.
  - intros r Hr. vm_compute in Hr.
    repeat (destruct Hr as [<- | Hr]; [reflexivity |]). destruct Hr.
  - eexists. eexists.
    split; [vm_compute; left; reflexivity |].
    split; [left; reflexivity |].
    split; [vm_compute; reflexivity |].
    split; [vm_compute; reflexivity |].
    vm_compute. discriminate.
Qed.

(** The abstained count of each solver of division 1. *)
Lemma abstained_is_total_minus_rows_witness :
  In (1, ranked_arith_seq)
     (info_for_podium_step scoring true
        (len_by_division true (selected_rows selection)) Kind.seq config
        (single_query defs tracked)) /\
  Forall (fun a =>
            Frame.len (contributed scoring true Kind.seq config
                         (single_query defs tracked) 1 (Agg.solver a))
            <= total_of true selection 1 < 2 ^ 32 /\
            Agg.abstained a
            = 3 - Frame.len (contributed scoring true Kind.seq config
                               (single_query defs tracked) 1 (Agg.solver a)))
         ranked_arith_seq.
Proof.
  split; [exact ranked_arith_seq_In |].
  apply Forall_forall. intros a Ha.
  split; [exact (rows_within_total a Ha) |].
  exact (proj1 (proj2 (abstained_is_total_minus_rows defs scoring true selection Kind.seq
                         config tracked 1 ranked_arith_seq a ranked_arith_seq_In Ha))
           (rows_within_total a Ha)).
Defined.

(** C4, as stated, fails: with one selected benchmark and two rows of the
    same solver, the abstained count is 4294967295 and not 1 - 2. *)
Lemma abstained_is_not_total_minus_rows :
  exists l a,
    In (1, l) (info_for_podium_step scoring true
                 (len_by_division true (selected_rows selection_one)) Kind.seq config
                 (single_query defs results_twice)) /\
    In a l /\
    total_of true selection_one 1 = 1 /\
    Frame.len (contributed scoring true Kind.seq config
                 (single_query defs results_twice) 1 (Agg.solver a)) = 2 /\
    Agg.abstained a = 4294967295 /\
    Agg.abstained a
    <> total_of true selection_one 1
       - Frame.len (contributed scoring true Kind.seq config
                      (single_query defs results_twice) 1 (Agg.solver a)).
Proof.
  eexists. eexists.
  split; [vm_compute; left; reflexivity |].
  split; [left; reflexivity |].
  split; [vm_compute; reflexivity |].
  split; [vm_compute; reflexivity |].
  split; [vm_compute; reflexivity |].
  vm_compute. discriminate.
Qed.

(** The pipeline returns the records computed above. *)
Lemma records_Ok :
  sq_generate_datas defs scoring config selection tracked true = Ok records.
Proof. vm_compute. reflexivity. Qed.

Lemma records_by_logic_Ok :
  sq_generate_datas defs scoring config selection tracked false = Ok records_by_logic.
Proof. vm_compute. reflexivity. Qed.

(** The winner of division 1 is the first entry of its list. *)
Lemma winner_is_first_unless_zero_witness :
  exists p s t,
    sq_generate_datas defs scoring config selection tracked true = Ok records /\
    In ("Arith"%string, p) records /\
    PodiumDivision.sequential p = s :: t /\
    PodiumStep.correctScore s <> 0 /\
    PodiumDivision.winner_seq p = PodiumStep.name s.
Proof.
  eexists. eexists. eexists.
  split; [exact records_Ok |].
  split; [left; reflexivity |].
  split; [reflexivity |].
  split; [discriminate |].
  refine (proj1 (proj2 (proj2
            (winner_is_first_unless_zero defs scoring config selection tracked true
               records "Arith"%string _ Kind.seq records_Ok (or_introl eq_refl))))
            _ _ eq_refl _).
  discriminate.
Defined.

(** C2, as stated, fails: a solver named "-" that tops the list with a
    correctness score of 1 is the winner, so the record shows "-" although
    the list is not empty and its first correctness score is not zero. *)
Lemma winner_dash_with_nonzero_score :
  exists out p,
    sq_generate_datas defs scoring config selection_one results_dash true = Ok out /\
    PyDict.get "Arith" out = Some p /\
    winner_of Kind.seq p = "-"%string /\
    ~ (ranked_of Kind.seq p = [] \/
       exists s t, ranked_of Kind.seq p = s :: t /\ PodiumStep.correctScore s = 0).
Proof.
  eexists. eexists.
  split; [vm_compute; reflexivity |].
  split; [vm_compute; reflexivity |].
  split; [reflexivity |].
  intros [H | (s & t & H & Hs)]; [discriminate |].
  simpl in H. inversion H; subst s. discriminate.
Qed.

(** Two rows of one solver for the only benchmark of a division. *)
Lemma rows_above_total_still_aggregated_witness :
  0 < total_of true selection_one 1 /\
  total_of true selection_one 1
  < Frame.len (contributed scoring true Kind.seq config
                 (single_query defs results_twice) 1 "A") /\
  exists df out d p l a,
    joined scoring config (selected_rows selection_one)
      (single_query defs results_twice) true = Ok df /\
    sq_generate_datas defs scoring config selection_one results_twice true = Ok out /\
    In d df /\ Joined.group d = 1 /\ make_podium defs config d true = Ok p /\
    Joined.ranked d Kind.seq = Some l /\ In a l /\ Agg.solver a = "A"%string /\
    Agg.abstained a
    = Frame.wrap_u32
        (total_of true selection_one 1
         - Frame.len (contributed scoring true Kind.seq config
                        (single_query defs results_twice) 1 "A")) /\
    0 <= Agg.abstained a < 2 ^ 32 /\
    (Frame.len (contributed scoring true Kind.seq config
                  (single_query defs results_twice) 1 "A")
     <= total_of true selection_one 1 + 2 ^ 32 ->
     Agg.abstained a
     = total_of true selection_one 1
       - Frame.len (contributed scoring true Kind.seq config
                      (single_query defs results_twice) 1 "A")
       + 2 ^ 32) /\
    In (podium_step a) (ranked_of Kind.seq p).
Proof.
  assert (H1 : 0 < total_of true selection_one 1) by (vm_compute; reflexivity).
  assert (H2 : total_of true selection_one 1
               < Frame.len (contributed scoring true Kind.seq config
                              (single_query defs results_twice) 1 "A"))
    by (vm_compute; reflexivity).
  split; [exact H1 |]. split; [exact H2 |].
  exact (rows_above_total_still_aggregated defs scoring config selection_one
           results_twice true Kind.seq 1 "A"%string H1 H2).
Defined.

(** C5, as stated, fails: with one selected benchmark and two rows of the
    same solver, no error is raised; the record of the division is produced
    and shows an abstained count of 2^32 - 1, the UInt32 difference of 1
    and 2. *)
Lemma abstained_wraps_without_error :
  exists out p step,
    total_of true selection_one 1 = 1 /\
    Frame.len (contributed scoring true Kind.seq config
                 (single_query defs results_twice) 1 "A") = 2 /\
    sq_generate_datas defs scoring config selection_one results_twice true = Ok out /\
    PyDict.get "Arith" out = Some p /\
    PodiumDivision.sequential p = [step] /\
    PodiumStep.name step = "A"%string /\
    PodiumStep.abstained step = 4294967295.
Proof.
  eexists. eexists. eexists.
  split; [vm_compute; reflexivity |].
  split; [vm_compute; reflexivity |].
  split; [vm_compute; reflexivity |].
  split; [vm_compute; reflexivity |].
  split; [reflexivity |].
  split; reflexivity.
Qed.

(** Division 2 has a selected benchmark and no result: its record has empty
    lists and no winner. *)
Lemma absent_variant_gives_empty_list_witness :
  In 2 (map fst (len_by_division true (selected_rows selection))) /\
  ~ In 2 (map fst (info_for_podium_step scoring true
                     (len_by_division true (selected_rows selection)) Kind.par config
                     (single_query defs tracked))) /\
  exists p,
    PyDict.get "Bitvec" records = Some p /\
    PodiumDivision.parallel p = [] /\ PodiumDivision.winner_par p = "-"%string.
Proof.
  assert (H1 : In 2 (map fst (len_by_division true (selected_rows selection))))
    by (vm_compute; auto).
  assert (H2 : ~ In 2 (map fst (info_for_podium_step scoring true
                                  (len_by_division true (selected_rows selection))
                                  Kind.par config (single_query defs tracked)))).
  { vm_compute. intros [H | []]. discriminate. }
  split; [exact H1 |]. split; [exact H2 |].
  destruct (absent_variant_gives_empty_list defs scoring config selection tracked true)
    as (df & out & _ & Eo & Hg).
  rewrite records_Ok in Eo. inversion Eo; subst out.
  destruct (Hg 2 H1) as (d & p & _ & _ & _ & Hk & Hget).
  exists p. split.
  - apply Hget. intros g' Hg' E. vm_compute in Hg'.
    destruct Hg' as [<- | [<- | []]]; [discriminate | reflexivity].
  - exact (proj2 (Hk Kind.par H2)).
Defined.

(** The flagged row of the example changes no file. *)
Lemma disagreements_do_not_contribute_witness :
  filter (fun r => negb (Results.disagreements r)) results
  = filter (fun r => negb (Results.disagreements r)) results_unflagged /\
  export_results defs scoring config selection results
  = export_results defs scoring config selection results_unflagged.
Proof.
  assert (H : filter (fun r => negb (Results.disagreements r)) results
              = filter (fun r => negb (Results.disagreements r)) results_unflagged)
    by reflexivity.
  split; [exact H |].
  exact (disagreements_do_not_contribute defs scoring config selection
           results results_unflagged H).
Defined.

(** The row of another track changes no record. *)
Lemma only_single_query_rows_contribute_witness :
  filter (fun r => Results.track r =? Track_SingleQuery defs) tracked
  = filter (fun r => Results.track r =? Track_SingleQuery defs) tracked_single /\
  sq_generate_datas defs scoring config selection tracked true
  = sq_generate_datas defs scoring config selection tracked_single true.
Proof.
  assert (H : filter (fun r => Results.track r =? Track_SingleQuery defs) tracked
              = filter (fun r => Results.track r =? Track_SingleQuery defs) tracked_single)
    by reflexivity.
  split; [exact H |].
  exact (proj1 (only_single_query_rows_contribute defs scoring config selection
                  tracked tracked_single true) H).
Defined.


(** The records grouped by logic have no logic counts. *)
Lemma logic_breakdown_by_logic_example :
  Forall (fun it => PodiumDivision.logics (snd it) = []) records_by_logic.
Proof. repeat constructor. Qed.



(** ** The further properties on the concrete competition *)

(** The two divisions of the example have distinct names, and so have its
    three logics. *)
Lemma example_distinct_divisions : distinct_names defs true selection.
Proof.
  intros g g' Hg Hg' E. unfold total_of in Hg, Hg'.
  apply len_filter_pos in Hg, Hg'.
  destruct Hg as (x & Hx & Ex), Hg' as (x' & Hx' & Ex').
  apply Z.eqb_eq in Ex, Ex'. subst g g'.
  vm_compute in Hx, Hx'.
  repeat match goal with
         | H : _ \/ _ |- _ => destruct H
         | H : False |- _ => destruct H
         end;
    subst; first [reflexivity | vm_compute in E; discriminate E].
Qed.

Lemma example_distinct_logics : distinct_names defs false selection.
Proof.
  intros g g' Hg Hg' E. unfold total_of in Hg, Hg'.
  apply len_filter_pos in Hg, Hg'.
  destruct Hg as (x & Hx & Ex), Hg' as (x' & Hx' & Ex').
  apply Z.eqb_eq in Ex, Ex'. subst g g'.
  vm_compute in Hx, Hx'.
  repeat match goal with
         | H : _ \/ _ |- _ => destruct H
         | H : False |- _ => destruct H
         end;
    subst; first [reflexivity | vm_compute in E; discriminate E].
Qed.

Lemma example_distinct_logic_names :
  forall g a b, 0 < logic_count selection g a -> 0 < logic_count selection g b ->
                Logic_name_of_int defs a = Logic_name_of_int defs b -> a = b.
Proof.
  intros g a b Ha Hb E. unfold logic_count in Ha, Hb.
  apply len_filter_pos in Ha, Hb.
  destruct Ha as (x & Hx & Ex), Hb as (x' & Hx' & Ex').
  apply andb_true_iff in Ex, Ex'. destruct Ex as [_ Ex], Ex' as [_ Ex'].
  apply Z.eqb_eq in Ex, Ex'. subst a b.
  vm_compute in Hx, Hx'.
  repeat match goal with
         | H : _ \/ _ |- _ => destruct H
         | H : False |- _ => destruct H
         end;
    subst; first [reflexivity | vm_compute in E; discriminate E].
Qed.

(** In the example a sat answer and an unsat answer are solved answers and
    exclude each other. *)
Lemma example_sat_unsat :
  forall r, In r (filter_for scoring Kind.seq config (single_query defs tracked)) ->
    (sat_answer scoring r = true -> known_answer scoring r = true) /\
    (unsat_answer scoring r = true -> known_answer scoring r = true) /\
    (sat_answer scoring r = true -> unsat_answer scoring r = false).
Proof.
  intros r Hr. vm_compute in Hr.
  repeat (destruct Hr as [<- | Hr];
          [repeat split; intros H; solve [reflexivity | discriminate H] |]).
  destruct Hr.
Qed.



(** Three and one selected benchmarks: four in all. *)
Lemma totals_add_up_to_selected_witness :
  distinct_names defs true selection /\
  sq_generate_datas defs scoring config selection tracked true = Ok records /\
  Frame.sum (map (fun it => PodiumDivision.n_benchmarks (snd it)) records) = 4.
Proof.
  split; [exact example_distinct_divisions |].
  split; [exact records_Ok |].
  exact (totals_add_up_to_selected defs scoring config selection tracked true records
           example_distinct_divisions records_Ok).
Defined.

(** The solvers of the sequential list of division 1. *)
Lemma listed_solvers_have_rows_witness :
  exists p,
    sq_generate_datas defs scoring config selection tracked true = Ok records /\
    In ("Arith"%string, p) records /\
    map PodiumStep.name (ranked_of Kind.seq p) = ["a"; "B"; "A"]%string /\
    exists g,
      "Arith"%string = name_of_int defs true g /\
      NoDup (map PodiumStep.name (ranked_of Kind.seq p)) /\
      forall s, In s (map PodiumStep.name (ranked_of Kind.seq p)) <->
                contributed scoring true Kind.seq config (single_query defs tracked) g s
                <> [].
Proof.
  eexists.
  split; [exact records_Ok |].
  split; [left; reflexivity |].
  split; [reflexivity |].
  exact (listed_solvers_have_rows defs scoring config selection tracked true records
           "Arith"%string _ Kind.seq records_Ok (or_introl eq_refl)).
Defined.

(** Division 2 has no row: its lists are empty. *)
Lemma empty_list_iff_no_rows_witness :
  exists p,
    sq_generate_datas defs scoring config selection tracked true = Ok records /\
    In ("Bitvec"%string, p) records /\
    ranked_of Kind.seq p = [] /\
    exists g,
      "Bitvec"%string = name_of_int defs true g /\
      (ranked_of Kind.seq p = [] <->
       rows_of_group scoring true Kind.seq config (single_query defs tracked) g = []) /\
      (ranked_of Kind.seq p = [] -> winner_of Kind.seq p = "-"%string).
Proof.
  eexists.
  split; [exact records_Ok |].
  split; [right; left; reflexivity |].
  split; [reflexivity |].
  exact (empty_list_iff_no_rows defs scoring config selection tracked true records
           "Bitvec"%string _ Kind.seq records_Ok (or_intror (or_introl eq_refl))).
Defined.

(** The counts of the first entry of the sequential list of division 1. *)
Lemma counts_within_rows_witness :
  exists p step t,
    sq_generate_datas defs scoring config selection tracked true = Ok records /\
    In ("Arith"%string, p) records /\
    ranked_of Kind.seq p = step :: t /\
    exists g n,
      "Arith"%string = name_of_int defs true g /\
      n = Frame.len (contributed scoring true Kind.seq config (single_query defs tracked)
                       g (PodiumStep.name step)) /\
      1 <= n /\
      0 <= PodiumStep.solved step <= n /\
      0 <= PodiumStep.solved_sat step <= n /\
      0 <= PodiumStep.solved_unsat step <= n /\
      0 <= PodiumStep.unsolved step <= n /\
      0 <= PodiumStep.timeout step <= n /\
      0 <= PodiumStep.memout step <= n /\
      PodiumStep.abstained step = Frame.wrap_u32 (PodiumDivision.n_benchmarks p - n) /\
      0 <= PodiumStep.abstained step < 2 ^ 32 /\
      (n <= PodiumDivision.n_benchmarks p < 2 ^ 32 ->
       PodiumStep.abstained step = PodiumDivision.n_benchmarks p - n /\
       PodiumStep.abstained step < PodiumDivision.n_benchmarks p).
Proof.
  eexists. eexists. eexists.
  split; [exact records_Ok |].
  split; [left; reflexivity |].
  split; [reflexivity |].
  exact (counts_within_rows defs scoring config selection tracked true records
           "Arith"%string _ Kind.seq _ records_Ok (or_introl eq_refl)
           (or_introl eq_refl)).
Defined.

(** The sat and unsat counts of the first entry. *)
Lemma sat_unsat_within_solved_witness :
  exists p step t,
    (forall r, In r (filter_for scoring Kind.seq config (single_query defs tracked)) ->
       (sat_answer scoring r = true -> known_answer scoring r = true) /\
       (unsat_answer scoring r = true -> known_answer scoring r = true) /\
       (sat_answer scoring r = true -> unsat_answer scoring r = false)) /\
    sq_generate_datas defs scoring config selection tracked true = Ok records /\
    In ("Arith"%string, p) records /\
    ranked_of Kind.seq p = step :: t /\
    PodiumStep.solved_sat step + PodiumStep.solved_unsat step <= PodiumStep.solved step.
Proof.
  eexists. eexists. eexists.
  split; [exact example_sat_unsat |].
  split; [exact records_Ok |].
  split; [left; reflexivity |].
  split; [reflexivity |].
  exact (sat_unsat_within_solved defs scoring config selection tracked true records
           "Arith"%string _ Kind.seq _ example_sat_unsat records_Ok (or_introl eq_refl)
           (or_introl eq_refl)).
Defined.

(** The sequential list of division 1, as emitted, is strictly descending. *)
Lemma emitted_list_sorted_witness :
  exists p,
    sq_generate_datas defs scoring config selection tracked true = Ok records /\
    In ("Arith"%string, p) records /\
    StronglySorted (fun a b => cmp_step scoring a b = Gt) (ranked_of Kind.seq p).
Proof.
  eexists.
  split; [exact records_Ok |].
  split; [left; reflexivity |].
  exact (emitted_list_sorted defs scoring config selection tracked true records
           "Arith"%string _ Kind.seq records_Ok (or_introl eq_refl)).
Defined.

(** Solver "a" wins division 1 and ranks above the two others. *)
Lemma winner_outranks_the_list_witness :
  exists p,
    sq_generate_datas defs scoring config selection tracked true = Ok records /\
    In ("Arith"%string, p) records /\
    winner_of Kind.seq p = "a"%string /\
    exists s t,
      ranked_of Kind.seq p = s :: t /\
      PodiumStep.name s = winner_of Kind.seq p /\
      PodiumStep.correctScore s <> 0 /\
      Forall (fun b => cmp_step scoring s b = Gt) t.
Proof.
  eexists.
  split; [exact records_Ok |].
  split; [left; reflexivity |].
  split; [reflexivity |].
  refine (winner_outranks_the_list defs scoring config selection tracked true records
            "Arith"%string _ Kind.seq records_Ok (or_introl eq_refl) _).
  discriminate.
Defined.

(** The logic counts of division 1, two and one, add up to three. *)
Lemma logic_counts_add_up_witness :
  exists p,
    (forall g a b, 0 < logic_count selection g a -> 0 < logic_count selection g b ->
                   Logic_name_of_int defs a = Logic_name_of_int defs b -> a = b) /\
    sq_generate_datas defs scoring config selection tracked true = Ok records /\
    In ("Arith"%string, p) records /\
    PodiumDivision.n_benchmarks p = 3 /\
    Frame.sum (map snd (PodiumDivision.logics p)) = PodiumDivision.n_benchmarks p.
Proof.
  eexists.
  split; [exact example_distinct_logic_names |].
  split; [exact records_Ok |].
  split; [left; reflexivity |].
  split; [reflexivity |].
  exact (logic_counts_add_up defs scoring config selection tracked records
           "Arith"%string _ example_distinct_logic_names records_Ok (or_introl eq_refl)).
Defined.

(** Logic "LIA", listed with two benchmarks in division 1, has its record. *)
Lemma listed_logics_have_records_witness :
  exists p,
    sq_generate_datas defs scoring config selection tracked true = Ok records /\
    sq_generate_datas defs scoring config selection tracked false = Ok records_by_logic /\
    In ("Arith"%string, p) records /\
    In ("LIA"%string, 2) (PodiumDivision.logics p) /\
    exists q,
      In ("LIA"%string, q) records_by_logic /\
      (distinct_names defs false selection -> 2 <= PodiumDivision.n_benchmarks q).
Proof.
  eexists.
  split; [exact records_Ok |].
  split; [exact records_by_logic_Ok |].
  split; [left; reflexivity |].
  split; [left; reflexivity |].
  exact (listed_logics_have_records defs scoring config selection tracked
           records records_by_logic "Arith"%string _ "LIA"%string 2
           records_Ok records_by_logic_Ok (or_introl eq_refl) (or_introl eq_refl)).
Defined.
